(** * Product API (server.js): a shallow embedding and its verification

    The Express application of [server.js] keeps a list of product objects in
    memory and serves CRUD, search and pagination requests over it.  The
    development models

    - JSON values and the JavaScript operators the handlers apply to them
      ([Js]): truthiness, [typeof], [toLowerCase], [includes], [parseInt],
      [Array.prototype.slice];
    - the error classes, the middlewares, the route handlers, the global error
      handler and the dispatch of a request through its middleware stack
      ([Server]);
    - the properties of the handlers ([Props], [Extra]).

    Conventions.  A JavaScript value read from an object is an [option json]:
    [None] is [undefined].  Objects are finite maps from property names to
    JSON values; the spread [{...a, ...b}] is the union in which [b] wins.
    A string is the sequence of its UTF-16 code units, one character of the
    model for each code unit, and the model has the strings whose code units
    are below 256 (Latin-1): [String.length] is [.length], and [toLowerCase]
    folds the letters of that range as JavaScript does.  Numbers of a JSON
    body are rationals.  The numbers of the page arithmetic are the
    integer-valued doubles with [NaN] and the infinities ([number]): an
    integer is rounded to the nearest double when it is parsed, subtracted or
    multiplied, and [NaN] and the infinities are sent as [null].  A query
    parameter is a string, or the array or object that a repeated or bracketed
    parameter gives ([qvalue]).  The values produced by the environment
    ([uuidv4()], the configured [API_KEY], the outcome of
    [bodyParser.json()]) are arguments of the model. *)

From Stdlib Require Import ZArith QArith String Ascii List Bool Lia.
From stdpp Require Import base option list gmap strings fin_maps.

Set Warnings "-register-all".

Local Open Scope string_scope.
Local Open Scope Z_scope.

(* ===================================================================== *)
(** * The JavaScript fragment used by the server *)
(* ===================================================================== *)

Module Js.

(** JSON values, as [bodyParser.json()] delivers them. *)
Inductive json : Type :=
  | JNull
  | JBool (b : bool)
  | JNum (q : Q)
  | JStr (s : string)
  | JArr (l : list json)
  | JObj (l : list (string * json)).

(** A top-level object: the request body and every stored product. *)
Abbreviation obj := (gmap string json).

(** [!v] is [negb (truthy v)]. *)
Definition truthy (v : option json) : bool :=
  match v with
  | None => false
  | Some JNull => false
  | Some (JBool b) => b
  | Some (JNum q) => negb (Qeq_bool q 0)
  | Some (JStr s) => negb (String.eqb s EmptyString)
  | Some (JArr _) => true
  | Some (JObj _) => true
  end.

Definition typeof (v : option json) : string :=
  match v with
  | None => "undefined"
  | Some JNull => "object"
  | Some (JBool _) => "boolean"
  | Some (JNum _) => "number"
  | Some (JStr _) => "string"
  | Some (JArr _) => "object"
  | Some (JObj _) => "object"
  end.

(** [v.length]; only read by the server after [typeof v === 'string']. *)
Definition length_of (v : option json) : Z :=
  match v with
  | Some (JStr s) => Z.of_nat (String.length s)
  | Some (JArr l) => Z.of_nat (List.length l)
  | _ => 0
  end.

(** [v <= 0] on a value already known to be a number. *)
Definition le_zero (v : option json) : bool :=
  match v with
  | Some (JNum q) => Qle_bool q 0
  | _ => false
  end.

(** [v === s] for a string [s]. *)
Definition strict_eq_str (v : option json) (s : string) : bool :=
  match v with
  | Some (JStr t) => String.eqb t s
  | _ => false
  end.

(** Truthiness and [===] for a header or query parameter, which is a string
    or [undefined]. *)
Definition str_truthy (v : option string) : bool :=
  match v with
  | Some s => negb (String.eqb s EmptyString)
  | None => false
  end.

Definition str_strict_eq (v : option string) (s : string) : bool :=
  match v with
  | Some t => String.eqb t s
  | None => false
  end.

(** The object [{...a, ...b}]: the properties of [b] win. *)
Definition spread (a b : obj) : obj := b ∪ a.

(** ** Strings *)

(** The lower case of a code unit below 256: the letters A to Z, and the
    letters from U+00C0 to U+00DE except the sign U+00D7, are 32 below their
    lower case; every other code unit of the range is its own lower case. *)
Definition lower_unit (c : ascii) : ascii :=
  let n := N_of_ascii c in
  if ((65 <=? n)%N && (n <=? 90)%N)
     || ((192 <=? n)%N && (n <=? 222)%N && negb (n =? 215)%N)
  then ascii_of_N (n + 32) else c.

Fixpoint toLowerCase (s : string) : string :=
  match s with
  | EmptyString => EmptyString
  | String c s' => String (lower_unit c) (toLowerCase s')
  end.

(** [s.includes(sub)]: [sub] occurs in [s] as a contiguous substring. *)
Fixpoint includes (s sub : string) : bool :=
  String.prefix sub s ||
  match s with
  | EmptyString => false
  | String _ s' => includes s' sub
  end.

(** ** Numbers

    The values of [parseInt] and of the arithmetic done on them: [NaN], the
    two infinities, and the doubles that are integers.  The zero of either
    sign is [Finite 0]: the two are sliced and sent alike. *)
Inductive number : Type :=
  | NaN
  | Infinity (positive : bool)
  | Finite (z : Z).

(** The double nearest to an integer, ties going to the even significand of
    53 bits; an integer that rounds to [2 ^ 1024] or more overflows. *)
Definition round_double (z : Z) : number :=
  let a := Z.abs z in
  if a <? 2 ^ 53 then Finite z
  else
    let e := Z.log2 a - 52 in
    let q := a / 2 ^ e in
    let r := a mod 2 ^ e in
    let half := 2 ^ (e - 1) in
    let q' :=
      if r <? half then q
      else if half <? r then q + 1
      else if Z.even q then q else q + 1 in
    let m := q' * 2 ^ e in
    if 2 ^ 1024 <=? m then Infinity (0 <? z) else Finite (Z.sgn z * m).

(** [a - b] *)
Definition num_sub (a b : number) : number :=
  match a, b with
  | NaN, _ | _, NaN => NaN
  | Finite x, Finite y => round_double (x - y)
  | Infinity s, Finite _ => Infinity s
  | Finite _, Infinity s => Infinity (negb s)
  | Infinity s, Infinity t => if Bool.eqb s t then NaN else Infinity s
  end.

(** [a * b] *)
Definition num_mul (a b : number) : number :=
  match a, b with
  | NaN, _ | _, NaN => NaN
  | Finite x, Finite y => round_double (x * y)
  | Infinity s, Finite y | Finite y, Infinity s =>
      if y =? 0 then NaN else Infinity (Bool.eqb s (0 <? y))
  | Infinity s, Infinity t => Infinity (Bool.eqb s t)
  end.

(** [Math.ceil(n / d)] for an array length [n].  For a finite [d] that is
    not 0 the quotient is rounded before the ceiling is taken; for an array
    length (below [2 ^ 32]) the rounded quotient lies strictly between the
    same two integers as the exact one, or is the same integer, so the
    ceiling is the exact one. *)
Definition ceil_div (n : Z) (d : number) : number :=
  match d with
  | NaN => NaN
  | Infinity _ => Finite 0
  | Finite l =>
      if l =? 0 then (if n =? 0 then NaN else Infinity true)
      else Finite (- ((- n) / l))
  end.

(** What [JSON.stringify] sends for a number: [null] for [NaN] and the
    infinities. *)
Definition json_number (x : number) : option Z :=
  match x with
  | Finite z => Some z
  | _ => None
  end.

(** ** [parseInt] without a radix

    Leading white space is skipped, a sign is read, a [0x]/[0X] prefix
    selects base 16, then the longest run of digits is read and its value
    rounded to a double; without a digit the result is [NaN]. *)

(** The white space below 256: space, the controls from tab to carriage
    return, and the no-break space U+00A0. *)
Definition is_space (c : ascii) : bool :=
  let n := N_of_ascii c in
  (n =? 32)%N || ((9 <=? n)%N && (n <=? 13)%N) || (n =? 160)%N.

Fixpoint trim_start (s : string) : string :=
  match s with
  | String c s' => if is_space c then trim_start s' else s
  | EmptyString => EmptyString
  end.

Definition digit_value (radix : Z) (c : ascii) : option Z :=
  let n := Z.of_N (N_of_ascii c) in
  let d :=
    if (48 <=? n) && (n <=? 57) then n - 48
    else if (97 <=? n) && (n <=? 122) then n - 87
    else if (65 <=? n) && (n <=? 90) then n - 55
    else 36 in
  if d <? radix then Some d else None.

(** Reads digits while there are some; [seen] tells whether one was read. *)
Fixpoint read_digits (radix : Z) (s : string) (acc : Z) (seen : bool)
  : option Z :=
  match s with
  | String c s' =>
      match digit_value radix c with
      | Some d => read_digits radix s' (acc * radix + d) true
      | None => if seen then Some acc else None
      end
  | EmptyString => if seen then Some acc else None
  end.

Definition parseInt (input : string) : number :=
  let s := trim_start input in
  let '(sign, s) :=
    match s with
    | String "-" s' => (-1, s')
    | String "+" s' => (1, s')
    | _ => (1, s)
    end in
  let '(radix, s) :=
    match s with
    | String "0" (String "x" s') => (16, s')
    | String "0" (String "X" s') => (16, s')
    | _ => (10, s)
    end in
  match read_digits radix s 0 false with
  | Some n => round_double (sign * n)
  | None => NaN
  end.

(** ** [Array.prototype.slice(start, end)]

    A [NaN] bound counts as 0; a negative bound counts from the end of the
    array; both are clamped to the array. *)

Definition relative_index (len : Z) (i : number) : Z :=
  match i with
  | NaN => 0
  | Infinity positive => if positive then len else 0
  | Finite k => if k <? 0 then Z.max (len + k) 0 else Z.min k len
  end.

Definition slice {A} (l : list A) (start finish : number) : list A :=
  let len := Z.of_nat (List.length l) in
  let k := relative_index len start in
  let final := relative_index len finish in
  let count := Z.max (final - k) 0 in
  take (Z.to_nat count) (drop (Z.to_nat k) l).

(** ** Query parameters

    The value that the query parser gives for a parameter: a string; an
    array, for a parameter that is repeated or written [k[]=v]; an object,
    for a parameter written [k[a]=v]. *)
Inductive qvalue : Type :=
  | QStr (s : string)
  | QArr (l : list qvalue)
  | QObj (l : list (string * qvalue)).

(** [!v] is [negb (qv_truthy v)]: arrays and objects are truthy. *)
Definition qv_truthy (v : option qvalue) : bool :=
  match v with
  | Some (QStr s) => negb (String.eqb s EmptyString)
  | Some _ => true
  | None => false
  end.

(** The string that [parseInt] makes of its argument: an array is the join
    of its elements with commas. *)
Fixpoint to_string (v : qvalue) : string :=
  match v with
  | QStr s => s
  | QArr l =>
      (fix join (l : list qvalue) : string :=
         match l with
         | [] => EmptyString
         | [x] => to_string x
         | x :: l' => to_string x ++ "," ++ join l'
         end) l
  | QObj _ => "[object Object]"
  end.

End Js.

(* ===================================================================== *)
(** * The server *)
(* ===================================================================== *)

Module Server.
Import Js.

(** ** Custom error classes

    An error object carries its class (for [instanceof]), [name], [message],
    and the optional [statusCode] and [details] properties.  [ErrorC] stands
    for every error that is not one of the three custom classes. *)

Inductive errclass : Type :=
  | ErrorC
  | NotFoundErrorC
  | ValidationErrorC
  | AuthenticationErrorC.

Record JsError : Type := mkJsError {
  err_class : errclass;
  err_name : string;
  err_message : string;
  err_statusCode : option Z;
  err_details : option (list string)
}.

Definition NotFoundError (message : string) : JsError :=
  {| err_class := NotFoundErrorC; err_name := "NotFoundError";
     err_message := message; err_statusCode := Some 404;
     err_details := None |}.

Definition ValidationError (message : string) (details : list string)
  : JsError :=
  {| err_class := ValidationErrorC; err_name := "ValidationError";
     err_message := message; err_statusCode := Some 400;
     err_details := Some details |}.

Definition AuthenticationError (message : string) : JsError :=
  {| err_class := AuthenticationErrorC; err_name := "AuthenticationError";
     err_message := message; err_statusCode := Some 401;
     err_details := None |}.

(** The error the runtime throws when a method is called on a value that
    does not have it. *)
Definition TypeError (message : string) : JsError :=
  {| err_class := ErrorC; err_name := "TypeError";
     err_message := message; err_statusCode := None;
     err_details := None |}.

(** [v.toLowerCase()] on a query parameter [v], written [expr] in the
    source: an array or an object has no such method. *)
Definition not_a_function (expr : string) : JsError :=
  {| err_class := ErrorC; err_name := "TypeError";
     err_message := expr ++ ".toLowerCase is not a function";
     err_statusCode := None; err_details := None |}.

(** Computations that may throw. *)
Definition throws (A : Type) : Type := JsError + A.

Definition bind {A B} (m : throws A) (k : A -> throws B) : throws B :=
  match m with
  | inl e => inl e
  | inr a => k a
  end.

Notation "'let*' x ':=' m 'in' k" := (bind m (fun x => k))
  (at level 10, x name, m at level 100, k at level 200).

(** [v.toLowerCase()] on a property value [v]. *)
Definition call_toLowerCase (v : option json) : throws string :=
  match v with
  | Some (JStr s) => inr (toLowerCase s)
  | None =>
      inl (TypeError
             "Cannot read properties of undefined (reading 'toLowerCase')")
  | Some JNull =>
      inl (TypeError "Cannot read properties of null (reading 'toLowerCase')")
  | Some _ => inl (TypeError "toLowerCase is not a function")
  end.

(** [l.filter(f)] for a callback that may throw: the first exception stops
    the traversal. *)
Fixpoint filter_throws {A} (f : A -> throws bool) (l : list A)
  : throws (list A) :=
  match l with
  | [] => inr []
  | x :: l' =>
      let* b := f x in
      let* r := filter_throws f l' in
      inr (if b then x :: r else r)
  end.

(** ** Data store *)

Definition product (id name description : string) (price : Q)
    (category : string) (inStock : bool) : obj :=
  list_to_map
    [("id", JStr id); ("name", JStr name); ("description", JStr description);
     ("price", JNum price); ("category", JStr category);
     ("inStock", JBool inStock)].

Definition products : list obj :=
  [ product "1" "Laptop" "High-performance laptop with 16GB RAM" 1200
      "electronics" true;
    product "2" "Smartphone" "Latest model with 128GB storage" 800
      "electronics" true;
    product "3" "Coffee Maker" "Programmable coffee maker with timer" 50
      "kitchen" false ].

(** ** Requests, responses and middlewares *)

Record Req : Type := mkReq {
  originalUrl : string;
  header_x_api_key : option string;     (* req.header('x-api-key') *)
  body : obj;                           (* req.body *)
  params_id : string;                   (* req.params.id *)
  query : gmap string qvalue            (* req.query *)
}.

(** The object sent by [GET /api/products]. *)
Record Results : Type := mkResults {
  totalItems : Z;
  totalPages : option Z;
  currentPage : option Z;
  results_products : list obj
}.

Inductive Payload : Type :=
  | Empty
  | OneProduct (p : obj)
  | ProductList (ps : list obj)
  | Page (r : Results)
  | ErrorBody (message : string) (details : option (list string)).

Record Res : Type := mkRes {
  status : Z;
  payload : Payload
}.

(** What a middleware or a handler does with a request: pass it on, pass an
    error on, or answer it, leaving the store in a new state. *)
Inductive outcome : Type :=
  | Next
  | NextErr (err : JsError)
  | Send (store : list obj) (res : Res).

Definition middleware : Type := Req -> list obj -> outcome.

(** An exception thrown by a handler is passed on as an error. *)
Definition catching (m : throws outcome) : outcome :=
  match m with
  | inl e => NextErr e
  | inr o => o
  end.

Section WithConfig.

(** [process.env.API_KEY || 'default-secret-key-fallback'] *)
Variable API_KEY : string.

Definition loggerMiddleware : middleware := fun req store => Next.

Definition authenticateMiddleware : middleware := fun req store =>
  let apiKey := header_x_api_key req in
  if negb (str_truthy apiKey) || negb (str_strict_eq apiKey API_KEY)
  then NextErr (AuthenticationError
                  "Authentication failed. Invalid or missing API key.")
  else Next.

Definition push_if {A} (c : bool) (x : A) (l : list A) : list A :=
  if c then l ++ [x] else l.

(** The [errors] array built by [validateProduct]. *)
Definition validation_errors (b : obj) : list string :=
  let name := b !! "name" in
  let price := b !! "price" in
  let category := b !! "category" in
  let inStock := b !! "inStock" in
  let errors := [] in
  let errors :=
    push_if (negb (truthy name) || negb (String.eqb (typeof name) "string")
             || (length_of name <? 3))
      "Name: required, string, min 3 characters." errors in
  let errors :=
    push_if (negb (bool_decide (is_Some price))
             || negb (String.eqb (typeof price) "number") || le_zero price)
      "Price: required, positive number." errors in
  let errors :=
    push_if (negb (truthy category)
             || negb (String.eqb (typeof category) "string"))
      "Category: required, string." errors in
  let errors :=
    push_if (bool_decide (is_Some inStock)
             && negb (String.eqb (typeof inStock) "boolean"))
      "inStock: must be a boolean (true/false) if provided." errors in
  errors.

Definition validateProduct : middleware := fun req store =>
  let errors := validation_errors (body req) in
  if 0 <? Z.of_nat (List.length errors)
  then NextErr (ValidationError "Product data validation failed." errors)
  else Next.

(** ** Routes *)

(** [v.toLowerCase()] on the query parameter [v] named [expr]. *)
Definition query_toLowerCase (expr : string) (v : option qvalue)
  : throws string :=
  match v with
  | Some (QStr s) => inr (toLowerCase s)
  | Some _ => inl (not_a_function expr)
  | None =>
      inl (TypeError
             "Cannot read properties of undefined (reading 'toLowerCase')")
  end.

(** [GET /api/products] *)
Definition listHandler : middleware := fun req store =>
  catching (
    let filteredProducts := store in
    let category := query req !! "category" in
    let page := default (QStr "1") (query req !! "page") in
    let limit := default (QStr "10") (query req !! "limit") in
    let* filteredProducts :=
      if qv_truthy category then
        filter_throws
          (fun p =>
             let* c := call_toLowerCase (p !! "category") in
             let* c' := query_toLowerCase "category" category in
             inr (String.eqb c c'))
          filteredProducts
      else inr filteredProducts in
    let pageNum := parseInt (to_string page) in
    let limitNum := parseInt (to_string limit) in
    let startIndex := num_mul (num_sub pageNum (Finite 1)) limitNum in
    let endIndex := num_mul pageNum limitNum in
    let len := Z.of_nat (List.length filteredProducts) in
    inr (Send store
           {| status := 200;
              payload := Page
                {| totalItems := len;
                   totalPages := json_number (ceil_div len limitNum);
                   currentPage := json_number pageNum;
                   results_products :=
                     slice filteredProducts startIndex endIndex |} |})).

(** The callback of the search filter: [||] does not evaluate its right
    operand when the left one is true. *)
Definition search_match (searchQuery : string) (p : obj) : throws bool :=
  let* n := call_toLowerCase (p !! "name") in
  if includes n searchQuery then inr true
  else
    let* d := call_toLowerCase (p !! "description") in
    inr (includes d searchQuery).

(** [GET /api/products/search] *)
Definition searchHandler : middleware := fun req store =>
  let q := query req !! "q" in
  if negb (qv_truthy q)
  then NextErr (ValidationError "Search query (q) parameter is required." [])
  else
    catching (
      let* searchQuery := query_toLowerCase "q" q in
      let* searchResults := filter_throws (search_match searchQuery) store in
      inr (Send store {| status := 200;
                         payload := ProductList searchResults |})).

(** [GET /api/products/:id] *)
Definition getHandler : middleware := fun req store =>
  let id := params_id req in
  match List.find (fun p => strict_eq_str (p !! "id") id) store with
  | None => NextErr (NotFoundError ("Product with id " ++ id ++ " not found."))
  | Some product =>
      Send store {| status := 200; payload := OneProduct product |}
  end.

(** [POST /api/products]; [uuid] is the value of [uuidv4()]. *)
Definition createHandler (uuid : string) : middleware := fun req store =>
  let newProduct :=
    <["inStock" :=
        match body req !! "inStock" with
        | Some v => v
        | None => JBool true
        end]>
      (spread {["id" := JStr uuid]} (body req)) in
  Send (store ++ [newProduct])
    {| status := 201; payload := OneProduct newProduct |}.

(** [PUT /api/products/:id]; [list_find] gives the index of [findIndex]
    together with the element stored there. *)
Definition updateHandler : middleware := fun req store =>
  let id := params_id req in
  match list_find (fun p => Is_true (strict_eq_str (p !! "id") id)) store with
  | None =>
      NextErr (NotFoundError
                 ("Product with id " ++ id ++ " not found for update."))
  | Some (productIndex, old) =>
      let updated := <["id" := JStr id]> (spread old (body req)) in
      Send (<[productIndex := updated]> store)
        {| status := 200; payload := OneProduct updated |}
  end.

(** [DELETE /api/products/:id].  The filtered list is assigned to the store
    before the lengths are compared; when the lengths agree it is the same
    list. *)
Definition deleteHandler : middleware := fun req store =>
  let id := params_id req in
  let initialLength := List.length store in
  let store' :=
    List.filter (fun p => negb (strict_eq_str (p !! "id") id)) store in
  if (List.length store' =? initialLength)%nat
  then NextErr (NotFoundError
                  ("Product with id " ++ id ++ " not found for deletion."))
  else Send store' {| status := 204; payload := Empty |}.

(** ** Error handling *)

(** The catch-all for requests that no route answered. *)
Definition notFoundMiddleware (req : Req) : Res :=
  {| status := 404;
     payload :=
       ErrorBody ("Route " ++ originalUrl req ++ " not found.") None |}.

(** The global error handler. *)
Definition errorHandler (err : JsError) : Res :=
  let statusCode :=
    match err_statusCode err with
    | Some c => if c =? 0 then 500 else c
    | None => 500
    end in
  let message :=
    if String.eqb (err_message err) EmptyString then "Internal Server Error"
    else err_message err in
  let details :=
    match err_class err, err_details err with
    | ValidationErrorC, Some (d :: ds) => Some (d :: ds)
    | _, _ => None
    end in
  {| status := statusCode; payload := ErrorBody message details |}.

(** ** Dispatch

    The routes that read or write the store through a request parameter.
    The welcome route and the statistics route take no parameter and never
    write the store; they are left out.  Express tries the routes in the
    order of their registration and matches paths without regard to case:
    a GET request for [/api/products/search] or [/api/products/stats], in
    any case, is answered by the search or the statistics route and does not
    reach the [:id] route. *)

Inductive route : Type :=
  | GET_products
  | GET_search
  | GET_id
  | POST_products
  | PUT_id
  | DELETE_id.

(** The middlewares a request of each route goes through, with their names. *)
Definition stack (uuid : string) (r : route) : list (string * middleware) :=
  ("loggerMiddleware", loggerMiddleware) ::
  match r with
  | GET_products => [("GET /api/products", listHandler)]
  | GET_search => [("GET /api/products/search", searchHandler)]
  | GET_id => [("GET /api/products/:id", getHandler)]
  | POST_products =>
      [("authenticateMiddleware", authenticateMiddleware);
       ("validateProduct", validateProduct);
       ("POST /api/products", createHandler uuid)]
  | PUT_id =>
      [("authenticateMiddleware", authenticateMiddleware);
       ("validateProduct", validateProduct);
       ("PUT /api/products/:id", updateHandler)]
  | DELETE_id => [("DELETE /api/products/:id", deleteHandler)]
  end.

(** The end of a request: the stages it entered, the store it leaves and the
    response. *)
Record Run : Type := mkRun {
  visited : list string;
  store_after : list obj;
  response : Res
}.

Fixpoint run (stages : list (string * middleware)) (req : Req)
    (store : list obj) (trace : list string) : Run :=
  match stages with
  | [] => mkRun trace store (notFoundMiddleware req)
  | (name, mw) :: rest =>
      match mw req store with
      | Next => run rest req store (trace ++ [name])
      | NextErr err => mkRun (trace ++ [name]) store (errorHandler err)
      | Send store' res => mkRun (trace ++ [name]) store' res
      end
  end.

Definition handle (uuid : string) (r : route) (req : Req)
    (store : list obj) : Run :=
  run (stack uuid r) req store [].

(** *** The application, with the body parser and the decoding of [:id]

    [handle] serves a request whose body [bodyParser.json()] has parsed into
    [req.body] and whose [:id] segment the router has decoded into
    [req.params.id].  The parser is registered after the logger and before
    every route; when it cannot parse the body (malformed JSON, a body over
    its size limit) it passes an error of its own on, which carries its
    status code (400, 413), and no stage of the route is entered.  The
    router decodes the [:id] segment when it matches the path of a route
    that has one; when the segment cannot be decoded (a [%] that does not
    start a valid escape) it passes a [URIError] with status code 400 on,
    and no middleware of the route is entered.  An incoming request is the
    request the routes would see together with these errors, if there are
    any. *)
Record Incoming : Type := mkIncoming {
  request : Req;
  parse_error : option JsError;
  decode_error : option JsError
}.

Definition jsonParser (incoming : Incoming) : middleware := fun req store =>
  match parse_error incoming with
  | Some err => NextErr err
  | None => Next
  end.

(** The middlewares of each route, as [stack] has them after the logger. *)
Definition route_stack (uuid : string) (r : route)
  : list (string * middleware) :=
  match r with
  | GET_products => [("GET /api/products", listHandler)]
  | GET_search => [("GET /api/products/search", searchHandler)]
  | GET_id => [("GET /api/products/:id", getHandler)]
  | POST_products =>
      [("authenticateMiddleware", authenticateMiddleware);
       ("validateProduct", validateProduct);
       ("POST /api/products", createHandler uuid)]
  | PUT_id =>
      [("authenticateMiddleware", authenticateMiddleware);
       ("validateProduct", validateProduct);
       ("PUT /api/products/:id", updateHandler)]
  | DELETE_id => [("DELETE /api/products/:id", deleteHandler)]
  end.

(** The routes whose path has the [:id] segment. *)
Definition with_param (r : route) : bool :=
  match r with
  | GET_id | PUT_id | DELETE_id => true
  | GET_products | GET_search | POST_products => false
  end.

(** Matching the path of a route: when the route has an [:id] segment that
    cannot be decoded, the error takes the place of its middlewares. *)
Definition matched (incoming : Incoming) (r : route)
    (stages : list (string * middleware)) : list (string * middleware) :=
  match decode_error incoming with
  | Some err =>
      if with_param r
      then [("/api/products/:id", fun _ _ => NextErr err)]
      else stages
  | None => stages
  end.

(** [app.use(loggerMiddleware); app.use(bodyParser.json());] then the
    routes. *)
Definition app (uuid : string) (r : route) (incoming : Incoming)
    (store : list obj) : Run :=
  run (("loggerMiddleware", loggerMiddleware)
       :: ("bodyParser.json", jsonParser incoming)
       :: matched incoming r (route_stack uuid r))
    (request incoming) store [].

End WithConfig.

(** The states the store can be in: the seed, and what any request leaves. *)
Inductive reachable (API_KEY : string) : list obj -> Prop :=
  | reachable_seed : reachable API_KEY products
  | reachable_step store uuid r req :
      reachable API_KEY store ->
      reachable API_KEY (store_after (handle API_KEY uuid r req store)).

(** ** Configuration *)

(** [process.env.API_KEY || 'default-secret-key-fallback']: the variable of
    the environment when it is set and not empty, the fallback otherwise. *)
Definition load_API_KEY (env_API_KEY : option string) : string :=
  if str_truthy env_API_KEY then default EmptyString env_API_KEY
  else "default-secret-key-fallback".

(** ** Statistics: [GET /api/products/stats] *)

(** The property names that the accumulator [{}] inherits from
    [Object.prototype]: reading one of them does not give [undefined]. *)
Definition inherited_names : list string :=
  ["constructor"; "__defineGetter__"; "__defineSetter__"; "hasOwnProperty";
   "__lookupGetter__"; "__lookupSetter__"; "isPrototypeOf";
   "propertyIsEnumerable"; "toString"; "valueOf"; "__proto__";
   "toLocaleString"].

(** The callback of the [reduce]:
    [acc[product.category] = (acc[product.category] || 0) + 1].
    It is modelled when the category is a string, which is then the property
    name, and not an inherited name, so that the value read is a count or
    [undefined]; [None] stands for the other categories, which are outside
    the model. *)
Definition count_step (acc : gmap string Z) (product : obj)
  : option (gmap string Z) :=
  match product !! "category" with
  | Some (JStr c) =>
      if bool_decide (c ∈ inherited_names) then None
      else
        let current :=
          match acc !! c with
          | Some n => if n =? 0 then 0 else n
          | None => 0
          end in
        Some (<[c := current + 1]> acc)
  | _ => None
  end.

Fixpoint reduce_counts (l : list obj) (acc : gmap string Z)
  : option (gmap string Z) :=
  match l with
  | [] => Some acc
  | product :: l' =>
      match count_step acc product with
      | Some acc' => reduce_counts l' acc'
      | None => None
      end
  end.

(** The object sent, with status 200, by the statistics route. *)
Record Stats : Type := mkStats {
  totalProducts : Z;
  inStockCount : Z;
  countByCategory : gmap string Z
}.

(** The handler reads the store and does not write it. *)
Definition statsHandler (store : list obj) : option Stats :=
  match reduce_counts store ∅ with
  | Some counts =>
      Some {| totalProducts := Z.of_nat (List.length store);
              inStockCount :=
                Z.of_nat
                  (List.length
                     (List.filter (fun p : obj => truthy (p !! "inStock"))
                        store));
              countByCategory := counts |}
  | None => None
  end.

End Server.

(* ===================================================================== *)
(** * Properties *)
(* ===================================================================== *)

Module Props.
Import Js Server.

(** ** Definitions used by the statements

    First the four validation rules in the words of the specification. *)

(** name: present, a string, of length at least 3 *)
Definition name_rule (b : obj) : bool :=
  match b !! "name" with
  | Some (JStr s) => 3 <=? Z.of_nat (String.length s)
  | _ => false
  end.

(** price: present, a number, greater than 0 *)
Definition price_rule (b : obj) : bool :=
  match b !! "price" with
  | Some (JNum q) => negb (Qle_bool q 0)
  | _ => false
  end.

(** category: present, a string, not empty *)
Definition category_rule (b : obj) : bool :=
  match b !! "category" with
  | Some (JStr s) => negb (String.eqb s EmptyString)
  | _ => false
  end.

(** inStock: a boolean if present *)
Definition inStock_rule (b : obj) : bool :=
  match b !! "inStock" with
  | None => true
  | Some (JBool _) => true
  | Some _ => false
  end.

(** One entry per violated rule, in the order of the rules. *)
Definition defects (b : obj) : list string :=
  (if name_rule b then [] else ["Name: required, string, min 3 characters."])
  ++ (if price_rule b then [] else ["Price: required, positive number."])
  ++ (if category_rule b then [] else ["Category: required, string."])
  ++ (if inStock_rule b then []
      else ["inStock: must be a boolean (true/false) if provided."]).

Definition violations (b : obj) : nat :=
  List.length (List.filter negb
    [name_rule b; price_rule b; category_rule b; inStock_rule b]).

(** The payload of the example: name "ab", price -1 and an empty category. *)
Definition invalid_payload : obj :=
  list_to_map
    [("name", JStr "ab"); ("price", JNum (-1)); ("category", JStr EmptyString)].

(** The failure the search filter raises on a product without description,
    which is not of a custom class. *)
Definition undefined_toLowerCase : JsError :=
  TypeError "Cannot read properties of undefined (reading 'toLowerCase')".

(** A body that changes the price and claims another id. *)
Definition price_update : obj :=
  list_to_map
    [("id", JStr "77"); ("name", JStr "Laptop"); ("price", JNum 999);
     ("category", JStr "electronics")].

(** The record [{id: uuid, ...body, inStock: ...}] built by the create
    handler. *)
Definition created_record (uuid : string) (b : obj) : obj :=
  <["inStock" := match b !! "inStock" with
                 | Some v => v
                 | None => JBool true
                 end]> (spread {["id" := JStr uuid]} b).

Definition ids (store : list obj) : list (option json) :=
  (fun p : obj => p !! "id") <$> store.

(** A valid body that names the id of a product of the seed. *)
Definition duplicate_id_payload : obj :=
  list_to_map
    [("id", JStr "1"); ("name", JStr "Tablet"); ("price", JNum 300);
     ("category", JStr "electronics")].

(** [v] is a string that contains [q], case-insensitively; an absent value
    contains nothing. *)
Definition contains_ci (q : string) (v : option json) : bool :=
  match v with
  | Some (JStr s) => includes (toLowerCase s) (toLowerCase q)
  | _ => false
  end.

(** The products whose name or description contains [q]. *)
Definition matching (q : string) (store : list obj) : list obj :=
  List.filter
    (fun p : obj =>
       contains_ci q (p !! "name") || contains_ci q (p !! "description"))
    store.

Definition is_string (v : option json) : bool :=
  match v with
  | Some (JStr _) => true
  | _ => false
  end.

(** The products on which the callback of the search does not throw: the
    name is a string, and the description is one too unless the name already
    contains [q]. *)
Definition searchable (q : string) (p : obj) : bool :=
  is_string (p !! "name")
  && (contains_ci q (p !! "name") || is_string (p !! "description")).

(** A valid body without description, and the store after its creation. *)
Definition lamp_payload : obj :=
  list_to_map
    [("name", JStr "Desk Lamp"); ("price", JNum 20); ("category", JStr "home")].

Definition store_with_lamp : list obj :=
  store_after
    (handle "super-secret-key-123" "4" POST_products
       (mkReq "/api/products" (Some "super-secret-key-123") lamp_payload
          EmptyString ∅)
       products).

Definition search_request (q : string) : Req :=
  mkReq ("/api/products/search?q=" ++ q) None ∅ EmptyString
    {[ "q" := QStr q ]}.

(** The elements of [l] at the positions [a], ..., [b - 1]; positions start
    at 0, so a negative position holds no element. *)
Definition positions {A} (l : list A) (a b : Z) : list A :=
  take (Z.to_nat b - Z.to_nat a) (drop (Z.to_nat a) l).


(** [p]'s category is [c], case-insensitively. *)
Definition in_category (c : string) (p : obj) : bool :=
  match p !! "category" with
  | Some (JStr s) => String.eqb (toLowerCase s) (toLowerCase c)
  | _ => false
  end.

(** The list that is paginated: the products of the category when the
    request names one, all the products otherwise. *)
Definition category_filter (category : option string) (store : list obj)
  : list obj :=
  match category with
  | Some c =>
      if String.eqb c EmptyString then store
      else List.filter (in_category c) store
  | None => store
  end.

(** The page and the limit of a request, with their defaults. *)
Definition requested_page (req : Req) : number :=
  parseInt (to_string (default (QStr "1") (query req !! "page"))).

Definition requested_limit (req : Req) : number :=
  parseInt (to_string (default (QStr "10") (query req !! "limit"))).


(** Every product has a category that is a string. *)
Definition categorized (store : list obj) : Prop :=
  Forall (fun p : obj => is_string (p !! "category") = true) store.

(** Every product has a name and a category that are strings. *)
Definition well_formed (store : list obj) : Prop :=
  Forall (fun p : obj => is_string (p !! "name") = true
                         /\ is_string (p !! "category") = true) store.

(** The error that the body parser passes on for a body that is not
    complete JSON. *)
Definition malformed_json : JsError :=
  mkJsError ErrorC "SyntaxError" "Unexpected end of JSON input" (Some 400)
    None.

(** The error that the router passes on for the segment [%E0%A4%A], which
    is not the encoding of a string. *)
Definition undecodable_param : JsError :=
  mkJsError ErrorC "URIError" "Failed to decode param '%E0%A4%A'" (Some 400)
    None.

(** The values of [id] for which [GET /api/products/<id>] is not answered
    by the [:id] route: the empty segment, with which the path is that of
    the list, and the segments that the search and the statistics routes,
    registered before the [:id] route, take from it, whatever the case of
    their letters. *)
Definition reserved_segment (id : string) : bool :=
  String.eqb id EmptyString
  || String.eqb (toLowerCase id) "search"
  || String.eqb (toLowerCase id) "stats".



(** A request without key and without body, for the product [id]. *)
Definition plain_request (id : string) : Req :=
  mkReq ("/api/products/" ++ id) None ∅ id ∅.

(** A request with a key and a body, for the product [id]. *)
Definition keyed_request (key id : string) (b : obj) : Req :=
  mkReq ("/api/products/" ++ id) (Some key) b id ∅.

(** The products that [DELETE /api/products/:id] keeps. *)
Definition without_id (id : string) (store : list obj) : list obj :=
  List.filter (fun p : obj => negb (strict_eq_str (p !! "id") id)) store.

(** The number of products whose category is exactly [c]. *)
Definition category_count (c : string) (store : list obj) : Z :=
  Z.of_nat
    (List.length
       (List.filter (fun p : obj => strict_eq_str (p !! "category") c)
          store)).

(** The sum of the counts of a table of counts. *)
Definition sum_counts (m : gmap string Z) : Z :=
  map_fold (fun (_ : string) (n s : Z) => n + s) 0 m.

(** The categories that the statistics count: strings that are not names
    inherited from [Object.prototype]. *)
Definition countable (store : list obj) : Prop :=
  Forall (fun p : obj =>
            exists c, p !! "category" = Some (JStr c)
                      /\ c ∉ inherited_names) store.

(** A stored product satisfies the four validation rules and has an
    [inStock] that is a boolean. *)
Definition valid_product (p : obj) : Prop :=
  defects p = [] /\ exists b, p !! "inStock" = Some (JBool b).

(** [p] is in stock: its [inStock] is [true]. *)
Definition in_stock (p : obj) : bool :=
  match p !! "inStock" with
  | Some (JBool true) => true
  | _ => false
  end.

(** ** The JavaScript fragment on examples *)

Example parseInt_examples :
  parseInt "2" = Finite 2 /\ parseInt "  -12px" = Finite (-12)
  /\ parseInt "0x1f" = Finite 31 /\ parseInt "abc" = NaN
  /\ parseInt EmptyString = NaN
  /\ parseInt "9007199254740993" = Finite 9007199254740992
  /\ parseInt "9007199254740995" = Finite 9007199254740996
  /\ parseInt (to_string (QArr [QStr "3"; QStr "7"])) = Finite 3.
Proof. repeat split; vm_compute; reflexivity. Qed.

Example slice_examples :
  slice [10; 20; 30; 40; 50] (Finite 2) (Finite 4) = [30; 40]
  /\ slice [10; 20; 30; 40; 50] (Finite 4) (Finite 8) = [50]
  /\ slice [10; 20; 30; 40; 50] (Finite (-4)) (Finite (-2)) = [20; 30]
  /\ slice [10; 20; 30; 40; 50] NaN (Infinity true) = [10; 20; 30; 40; 50]
  /\ slice [10; 20; 30; 40; 50] NaN NaN = [].
Proof. repeat split. Qed.

(** The lower case of "ÉCOLE", whose first code unit is 201, is "école",
    whose first code unit is 233. *)
Example toLowerCase_examples :
  toLowerCase (String (ascii_of_N 201) "COLE")
  = String (ascii_of_N 233) "cole"
  /\ toLowerCase (String (ascii_of_N 215) "Z") = String (ascii_of_N 215) "z".
Proof. split; reflexivity. Qed.

Example includes_examples :
  includes (toLowerCase "Coffee Maker") (toLowerCase "MAKE") = true
  /\ includes (toLowerCase "Coffee Maker") "tea" = false.
Proof. split; reflexivity. Qed.

(** ** Dispatch *)

Lemma run_next name (mw : middleware) rest req store trace :
  mw req store = Next ->
  run ((name, mw) :: rest) req store trace
  = run rest req store (trace ++ [name]).
Proof. intros E. simpl. now rewrite E. Qed.

Lemma run_error name (mw : middleware) rest req store trace err :
  mw req store = NextErr err ->
  run ((name, mw) :: rest) req store trace
  = mkRun (trace ++ [name]) store (errorHandler err).
Proof. intros E. simpl. now rewrite E. Qed.

Lemma run_send name (mw : middleware) rest req store trace store' res :
  mw req store = Send store' res ->
  run ((name, mw) :: rest) req store trace
  = mkRun (trace ++ [name]) store' res.
Proof. intros E. simpl. now rewrite E. Qed.

(** ** Authentication *)

Lemma authenticate_pass API_KEY req store :
  API_KEY <> EmptyString ->
  header_x_api_key req = Some API_KEY ->
  authenticateMiddleware API_KEY req store = Next.
Proof.
  intros Hne Hk. unfold authenticateMiddleware. rewrite Hk. simpl.
  rewrite String.eqb_refl.
  destruct (String.eqb_spec API_KEY EmptyString) as [E|_];
    [contradiction|reflexivity].
Qed.

Lemma authenticate_fail API_KEY req store :
  header_x_api_key req = None \/
  (exists k, header_x_api_key req = Some k /\ k <> API_KEY) ->
  authenticateMiddleware API_KEY req store
  = NextErr (AuthenticationError
               "Authentication failed. Invalid or missing API key.").
Proof.
  intros [Hk|(k & Hk & Hd)]; unfold authenticateMiddleware; rewrite Hk; simpl.
  - reflexivity.
  - destruct (String.eqb_spec k API_KEY) as [E|_]; [contradiction|].
    simpl. now rewrite orb_true_r.
Qed.

Lemma authenticate_cases API_KEY req store :
  authenticateMiddleware API_KEY req store = Next \/
  authenticateMiddleware API_KEY req store
  = NextErr (AuthenticationError
               "Authentication failed. Invalid or missing API key.").
Proof.
  unfold authenticateMiddleware. destruct (negb _ || negb _); auto.
Qed.

(** ** Validation *)

Lemma name_test (b : obj) :
  negb (truthy (b !! "name"))
  || negb (String.eqb (typeof (b !! "name")) "string")
  || (length_of (b !! "name") <? 3)
  = negb (name_rule b).
Proof.
  unfold name_rule. destruct (b !! "name") as [[| | |s| |]|]; simpl;
    try reflexivity; try apply orb_true_r.
  rewrite orb_false_r.
  destruct s as [|c s]; simpl; [reflexivity|].
  now rewrite Z.leb_antisym, negb_involutive.
Qed.

Lemma price_test (b : obj) :
  negb (bool_decide (is_Some (b !! "price")))
  || negb (String.eqb (typeof (b !! "price")) "number")
  || le_zero (b !! "price")
  = negb (price_rule b).
Proof.
  unfold price_rule. destruct (b !! "price") as [[| |q| | |]|]; simpl;
    try reflexivity.
  now rewrite negb_involutive.
Qed.

Lemma category_test (b : obj) :
  negb (truthy (b !! "category"))
  || negb (String.eqb (typeof (b !! "category")) "string")
  = negb (category_rule b).
Proof.
  unfold category_rule. destruct (b !! "category") as [[| | |s| |]|]; simpl;
    try reflexivity; try apply orb_true_r.
  apply orb_false_r.
Qed.

Lemma inStock_test (b : obj) :
  bool_decide (is_Some (b !! "inStock"))
  && negb (String.eqb (typeof (b !! "inStock")) "boolean")
  = negb (inStock_rule b).
Proof.
  unfold inStock_rule. destruct (b !! "inStock") as [[| | | | |]|]; reflexivity.
Qed.

Lemma validation_errors_defects (b : obj) :
  validation_errors b = defects b.
Proof.
  unfold validation_errors, defects.
  rewrite name_test, price_test, category_test, inStock_test.
  destruct (name_rule b), (price_rule b), (category_rule b), (inStock_rule b);
    reflexivity.
Qed.

Lemma defects_length (b : obj) : List.length (defects b) = violations b.
Proof.
  unfold defects, violations.
  destruct (name_rule b), (price_rule b), (category_rule b), (inStock_rule b);
    reflexivity.
Qed.

Lemma validate_pass req store :
  defects (body req) = [] -> validateProduct req store = Next.
Proof.
  intros E. unfold validateProduct. now rewrite validation_errors_defects, E.
Qed.

Lemma validate_fail req store :
  defects (body req) <> [] ->
  validateProduct req store
  = NextErr (ValidationError "Product data validation failed."
               (defects (body req))).
Proof.
  intros E. unfold validateProduct. rewrite validation_errors_defects.
  destruct (defects (body req)) as [|d ds]; [contradiction|reflexivity].
Qed.

Lemma defects_nil (b : obj) :
  defects b = [] <->
  name_rule b = true /\ price_rule b = true /\ category_rule b = true
  /\ inStock_rule b = true.
Proof.
  unfold defects.
  destruct (name_rule b), (price_rule b), (category_rule b), (inStock_rule b);
    simpl; split; intros H; try discriminate; try tauto;
    destruct H as (?&?&?&?); discriminate.
Qed.

(** A request that passes authentication and fails validation is answered
    400 with the defects, and the store is left as it was. *)
Lemma handle_invalid API_KEY uuid r req store :
  API_KEY <> EmptyString ->
  header_x_api_key req = Some API_KEY ->
  r = POST_products \/ r = PUT_id ->
  defects (body req) <> [] ->
  handle API_KEY uuid r req store
  = mkRun ["loggerMiddleware"; "authenticateMiddleware"; "validateProduct"]
      store
      {| status := 400;
         payload := ErrorBody "Product data validation failed."
                      (Some (defects (body req))) |}.
Proof.
  intros Hne Hk Hr Hd. unfold handle.
  assert (Hrun : forall h,
    run (("loggerMiddleware", loggerMiddleware) ::
         [("authenticateMiddleware", authenticateMiddleware API_KEY);
          ("validateProduct", validateProduct); h]) req store []
    = mkRun ["loggerMiddleware"; "authenticateMiddleware"; "validateProduct"]
        store
        {| status := 400;
           payload := ErrorBody "Product data validation failed."
                        (Some (defects (body req))) |}).
  { intros h. rewrite run_next by reflexivity.
    rewrite run_next by now apply authenticate_pass.
    rewrite (run_error _ _ _ _ _ _ _ (validate_fail req store Hd)).
    simpl. unfold errorHandler. simpl.
    destruct (defects (body req)); [contradiction|reflexivity]. }
  destruct Hr as [-> | ->]; apply Hrun.
Qed.

(** C7: [validateProduct] checks the four rules (name, price, category,
    inStock) independently of one another: its error list has one entry for
    each violated rule, whatever the other rules say, so its length is the
    number of violated rules; a request that passes authentication and
    violates some rule is answered 400 with that list as details, and the
    payload with name "ab", price -1 and an empty category gets exactly 3
    details. *)
Theorem validateProduct_collects_every_violation
    (API_KEY uuid : string) (r : route) (req : Req) (store : list obj) :
  API_KEY <> EmptyString ->
  header_x_api_key req = Some API_KEY ->
  r = POST_products \/ r = PUT_id ->
  let out := handle API_KEY uuid r req store in
  validation_errors (body req) = defects (body req)
  /\ List.length (validation_errors (body req)) = violations (body req)
  /\ (violations (body req) <> 0%nat ->
      response out
      = {| status := 400;
           payload := ErrorBody "Product data validation failed."
                        (Some (validation_errors (body req))) |})
  /\ (body req = invalid_payload ->
      exists details,
        response out
        = {| status := 400;
             payload := ErrorBody "Product data validation failed."
                          (Some details) |}
        /\ List.length details = 3%nat).
Proof.
  intros Hne Hk Hr out. subst out.
  rewrite validation_errors_defects.
  split; [reflexivity|]. split; [apply defects_length|]. split.
  - intros Hv. rewrite handle_invalid; try assumption; [reflexivity|].
    intros E. apply Hv. now rewrite <- defects_length, E.
  - intros Hb. exists (defects (body req)).
    rewrite handle_invalid; try assumption.
    + split; [reflexivity|]. now rewrite Hb.
    + now rewrite Hb.
Qed.

Lemma validateProduct_collects_every_violation_witness :
  let req := mkReq "/api/products" (Some "super-secret-key-123")
               invalid_payload EmptyString ∅ in
  let out := handle "super-secret-key-123" "generated" POST_products req
               products in
  validation_errors (body req) = defects (body req)
  /\ List.length (validation_errors (body req)) = violations (body req)
  /\ (violations (body req) <> 0%nat ->
      response out
      = {| status := 400;
           payload := ErrorBody "Product data validation failed."
                        (Some (validation_errors (body req))) |})
  /\ (body req = invalid_payload ->
      exists details,
        response out
        = {| status := 400;
             payload := ErrorBody "Product data validation failed."
                          (Some details) |}
        /\ List.length details = 3%nat).
Proof.
  apply (validateProduct_collects_every_violation
           "super-secret-key-123" "generated" POST_products
           (mkReq "/api/products" (Some "super-secret-key-123")
              invalid_payload EmptyString ∅) products).
  - discriminate.
  - reflexivity.
  - left; reflexivity.
Defined.

(** *** The application: the body parser before the routes *)

(** The stages entered are added to the trace; the store and the response
    do not depend on the trace. *)
Lemma run_trace stages req store trace :
  run stages req store trace
  = mkRun (trace ++ visited (run stages req store []))%list
      (store_after (run stages req store []))
      (response (run stages req store [])).
Proof.
  revert trace. induction stages as [|[name mw] rest IH]; intros trace; simpl.
  - now rewrite app_nil_r.
  - destruct (mw req store); simpl; try reflexivity.
    rewrite (IH (trace ++ [name])%list), (IH [name]). simpl.
    now rewrite <- app_assoc.
Qed.

Lemma stack_route_stack API_KEY uuid r :
  stack API_KEY uuid r
  = ("loggerMiddleware", loggerMiddleware) :: route_stack API_KEY uuid r.
Proof. now destruct r. Qed.

Lemma matched_decoded incoming r stages :
  with_param r = false \/ decode_error incoming = None ->
  matched incoming r stages = stages.
Proof.
  unfold matched. intros [-> | ->]; [|reflexivity].
  now destruct (decode_error incoming).
Qed.

(** When the parser accepts the body and the path is decoded, the
    application answers as [handle] does, after one more stage. *)
Lemma app_parsed API_KEY uuid r incoming store :
  parse_error incoming = None ->
  with_param r = false \/ decode_error incoming = None ->
  let out := handle API_KEY uuid r (request incoming) store in
  app API_KEY uuid r incoming store
  = mkRun ("loggerMiddleware" :: "bodyParser.json" :: drop 1 (visited out))
      (store_after out) (response out).
Proof.
  intros Hp Hd out. subst out. unfold app, handle.
  rewrite (matched_decoded _ _ _ Hd).
  rewrite stack_route_stack.
  rewrite run_next by reflexivity.
  rewrite run_next by (unfold jsonParser; now rewrite Hp).
  rewrite run_next by reflexivity. cbn [List.app].
  rewrite (run_trace _ _ _ [_; _]), (run_trace _ _ _ [_]). reflexivity.
Qed.

(** When the parser rejects the body, its error is answered and no stage of
    the route is entered. *)
Lemma app_unparsed API_KEY uuid r incoming store err :
  parse_error incoming = Some err ->
  app API_KEY uuid r incoming store
  = mkRun ["loggerMiddleware"; "bodyParser.json"] store (errorHandler err).
Proof.
  intros Hp. unfold app. rewrite run_next by reflexivity.
  rewrite (run_error _ _ _ _ _ _ err); [reflexivity|].
  unfold jsonParser. now rewrite Hp.
Qed.

(** When the [:id] segment of a route cannot be decoded, the error of the
    router is answered and no middleware of the route is entered. *)
Lemma app_undecoded API_KEY uuid r incoming store err :
  parse_error incoming = None ->
  with_param r = true ->
  decode_error incoming = Some err ->
  app API_KEY uuid r incoming store
  = mkRun ["loggerMiddleware"; "bodyParser.json"; "/api/products/:id"] store
      (errorHandler err).
Proof.
  intros Hp Hr Hd. unfold app, matched. rewrite Hd, Hr.
  rewrite run_next by reflexivity.
  rewrite run_next by (unfold jsonParser; now rewrite Hp).
  now rewrite (run_error _ _ _ _ _ _ err).
Qed.

Lemma unauthenticated_handle API_KEY uuid r req store :
  r = POST_products \/ r = PUT_id ->
  header_x_api_key req = None \/
  (exists k, header_x_api_key req = Some k /\ k <> API_KEY) ->
  handle API_KEY uuid r req store
  = mkRun ["loggerMiddleware"; "authenticateMiddleware"] store
      {| status := 401;
         payload := ErrorBody
                      "Authentication failed. Invalid or missing API key."
                      None |}.
Proof.
  intros Hr Hk. unfold handle.
  assert (E : forall rest,
    run (("loggerMiddleware", loggerMiddleware) ::
         ("authenticateMiddleware", authenticateMiddleware API_KEY) :: rest)
      req store []
    = mkRun ["loggerMiddleware"; "authenticateMiddleware"] store
        (errorHandler (AuthenticationError
           "Authentication failed. Invalid or missing API key."))).
  { intros rest. rewrite run_next by reflexivity.
    now rewrite (run_error _ _ _ _ _ _ _
                   (authenticate_fail API_KEY req store Hk)). }
  destruct Hr as [-> | ->]; unfold stack; now rewrite E.
Qed.

(** C6, as stated, fails: the body parser and the decoding of the path run
    before the authentication.  A POST request without key whose body is not
    complete JSON is answered with the status of the parser's error, 400,
    not 401; so is a PUT request without key whose [:id] segment cannot be
    decoded. *)
Lemma unauthenticated_malformed_body_counterexample :
  let incoming :=
    mkIncoming (mkReq "/api/products" None ∅ EmptyString ∅)
      (Some malformed_json) None in
  let out :=
    app "super-secret-key-123" "generated" POST_products incoming products in
  let undecoded :=
    mkIncoming (mkReq "/api/products/%E0%A4%A" None ∅ EmptyString ∅)
      None (Some undecodable_param) in
  let out' :=
    app "super-secret-key-123" "generated" PUT_id undecoded products in
  (header_x_api_key (request incoming) = None
   /\ response out
      = {| status := 400;
           payload := ErrorBody "Unexpected end of JSON input" None |}
   /\ visited out = ["loggerMiddleware"; "bodyParser.json"])
  /\ (header_x_api_key (request undecoded) = None
      /\ response out'
         = {| status := 400;
              payload := ErrorBody "Failed to decode param '%E0%A4%A'"
                           None |}
      /\ visited out'
         = ["loggerMiddleware"; "bodyParser.json"; "/api/products/:id"]).
Proof. repeat split. Qed.

(** C6, amended: a POST or PUT request whose [x-api-key] header is missing
    or is not the configured key never enters [validateProduct] and leaves
    the store as it was; when the body parser accepts its body and, for a
    PUT request, the router decodes its [:id] segment, it is answered 401 by
    the authentication; when the body parser rejects its body it is answered
    with the error of the parser, and when the [:id] segment of a PUT
    request cannot be decoded it is answered with the error of the router;
    the authentication is not entered in these two cases. *)
Theorem unauthenticated_write_rejected
    (API_KEY uuid : string) (r : route) (incoming : Incoming)
    (store : list obj) :
  r = POST_products \/ r = PUT_id ->
  header_x_api_key (request incoming) = None \/
  (exists k, header_x_api_key (request incoming) = Some k /\ k <> API_KEY) ->
  let out := app API_KEY uuid r incoming store in
  store_after out = store
  /\ ("validateProduct" ∉ visited out)
  /\ (parse_error incoming = None ->
      r = POST_products \/ decode_error incoming = None ->
      response out
      = {| status := 401;
           payload := ErrorBody
                        "Authentication failed. Invalid or missing API key."
                        None |}
      /\ visited out
         = ["loggerMiddleware"; "bodyParser.json";
            "authenticateMiddleware"])
  /\ (forall err, parse_error incoming = Some err ->
      response out = errorHandler err
      /\ visited out = ["loggerMiddleware"; "bodyParser.json"])
  /\ (forall err,
        parse_error incoming = None -> r = PUT_id ->
        decode_error incoming = Some err ->
        response out = errorHandler err
        /\ visited out
           = ["loggerMiddleware"; "bodyParser.json"; "/api/products/:id"]).
Proof.
  intros Hr Hk out. subst out.
  destruct (parse_error incoming) as [err|] eqn:Hp.
  - rewrite (app_unparsed _ _ _ _ _ err Hp). simpl.
    split; [reflexivity|].
    split; [|split; [discriminate|split; [|discriminate]]].
    + intros Hin. apply list_elem_of_In in Hin. simpl in Hin.
      destruct Hin as [H|[H|[]]]; discriminate H.
    + intros err' [= <-]. split; reflexivity.
  - assert (Hcase : (with_param r = false \/ decode_error incoming = None)
                    \/ (exists err, r = PUT_id
                                    /\ decode_error incoming = Some err)).
    { destruct Hr as [-> | ->]; [left; now left|].
      destruct (decode_error incoming) as [err|]; [right|left; now right].
      now exists err. }
    destruct Hcase as [Hd | (err & -> & Hd)].
    + rewrite (app_parsed _ _ _ _ _ Hp Hd).
      rewrite (unauthenticated_handle _ _ _ _ _ Hr Hk). simpl.
      split; [reflexivity|].
      split; [|split; [|split; [discriminate|]]].
      * intros Hin. apply list_elem_of_In in Hin. simpl in Hin.
        destruct Hin as [H|[H|[H|[]]]]; discriminate H.
      * intros _ _. split; reflexivity.
      * intros err _ -> He. destruct Hd as [Hd | Hd];
          [discriminate Hd|congruence].
    + rewrite (app_undecoded _ _ PUT_id _ _ err Hp eq_refl Hd). simpl.
      split; [reflexivity|].
      split; [|split; [|split; [discriminate|]]].
      * intros Hin. apply list_elem_of_In in Hin. simpl in Hin.
        destruct Hin as [H|[H|[H|[]]]]; discriminate H.
      * intros _ [H | H]; [discriminate H|congruence].
      * intros err' _ _ He. rewrite Hd in He. injection He as <-.
        split; reflexivity.
Qed.

Lemma unauthenticated_write_rejected_witness :
  let incoming :=
    mkIncoming
      (mkReq "/api/products/1" (Some "guess") invalid_payload "1" ∅) None
      None in
  let out := app "super-secret-key-123" "generated" PUT_id incoming products in
  store_after out = products
  /\ ("validateProduct" ∉ visited out)
  /\ response out
     = {| status := 401;
          payload := ErrorBody
                       "Authentication failed. Invalid or missing API key."
                       None |}
  /\ visited out
     = ["loggerMiddleware"; "bodyParser.json"; "authenticateMiddleware"].
Proof.
  destruct (unauthenticated_write_rejected "super-secret-key-123"
              "generated" PUT_id
              (mkIncoming
                 (mkReq "/api/products/1" (Some "guess") invalid_payload "1"
                    ∅)
                 None None)
              products) as (Hs & Hv & H & _).
  - right; reflexivity.
  - right. exists "guess". split; [reflexivity|discriminate].
  - split; [exact Hs|]. split; [exact Hv|].
    apply H; [reflexivity|right; reflexivity].
Defined.

(** C8: an update is validated as a full record: a PUT request that passes
    authentication and whose body lacks [name], [price] or [category] is
    answered 400 and leaves every stored record as it was, also when the
    record addressed exists and has the field. *)
Theorem update_validated_as_full_record
    (API_KEY uuid : string) (req : Req) (store : list obj) :
  API_KEY <> EmptyString ->
  header_x_api_key req = Some API_KEY ->
  body req !! "name" = None \/ body req !! "price" = None
  \/ body req !! "category" = None ->
  let out := handle API_KEY uuid PUT_id req store in
  status (response out) = 400 /\ store_after out = store.
Proof.
  intros Hne Hk Hb out. subst out.
  rewrite handle_invalid; try assumption; [split; reflexivity|now right|].
  intros E. apply defects_nil in E. destruct E as (Hn & Hp & Hc & _).
  unfold name_rule, price_rule, category_rule in *.
  destruct Hb as [H|[H|H]]; rewrite H in *; discriminate.
Qed.

Lemma update_validated_as_full_record_witness :
  let req := mkReq "/api/products/1" (Some "super-secret-key-123")
               (list_to_map [("price", JNum 999)]) "1" ∅ in
  let out := handle "super-secret-key-123" "generated" PUT_id req products in
  status (response out) = 400 /\ store_after out = products.
Proof.
  apply (update_validated_as_full_record "super-secret-key-123" "generated"
           (mkReq "/api/products/1" (Some "super-secret-key-123")
              (list_to_map [("price", JNum 999)]) "1" ∅) products).
  - discriminate.
  - reflexivity.
  - left. reflexivity.
Defined.

(** ** The global error handler *)

(** C3, as stated, fails: a failure outside the three custom classes is
    answered 500 with its own message, not with a generic one; and when it
    carries a status code of its own, with that code instead of 500. *)
Lemma errorHandler_generic_message_counterexample :
  err_class undefined_toLowerCase = ErrorC
  /\ errorHandler undefined_toLowerCase
     = {| status := 500;
          payload :=
            ErrorBody
              "Cannot read properties of undefined (reading 'toLowerCase')"
              None |}
  /\ payload (errorHandler undefined_toLowerCase)
     <> ErrorBody "Internal Server Error" None
  /\ status (errorHandler
               (mkJsError ErrorC "SyntaxError" "Unexpected end of JSON input"
                  (Some 400) None)) = 400.
Proof. repeat split; try reflexivity. discriminate. Qed.

(** C3, amended: a failure of a custom class with a non-empty message is
    answered with the status code of its class (404, 400, 401) and the body
    [{status: "error", message}]; [details] is in the body exactly when the
    failure is a [ValidationError] with a non-empty defect list; any failure
    without a status code of its own is answered 500, with its own message
    when it has one and with "Internal Server Error" only when its message
    is empty; a failure with a status code of its own is answered with that
    code. *)
Theorem errorHandler_translation (message : string) (ds : list string)
    (err : JsError) :
  message <> EmptyString ->
  errorHandler (NotFoundError message)
  = {| status := 404; payload := ErrorBody message None |}
  /\ errorHandler (AuthenticationError message)
     = {| status := 401; payload := ErrorBody message None |}
  /\ errorHandler (ValidationError message ds)
     = {| status := 400;
          payload := ErrorBody message
                       (match ds with [] => None | _ => Some ds end) |}
  /\ ((exists m d, payload (errorHandler err) = ErrorBody m (Some d)) <->
      err_class err = ValidationErrorC /\
      exists d, err_details err = Some d /\ d <> [])
  /\ (err_statusCode err = None ->
      status (errorHandler err) = 500 /\
      exists d,
        payload (errorHandler err)
        = ErrorBody (if String.eqb (err_message err) EmptyString
                     then "Internal Server Error" else err_message err) d)
  /\ (forall c, err_statusCode err = Some c -> c <> 0 ->
      status (errorHandler err) = c).
Proof.
  intros Hm.
  assert (Hm' : String.eqb message EmptyString = false)
    by (destruct (String.eqb_spec message EmptyString); congruence).
  unfold errorHandler; simpl. rewrite Hm'.
  repeat split; try reflexivity.
  - now destruct ds.
  - destruct H as (m & d & H).
    destruct (err_class err), (err_details err) as [[|? ?]|];
      try discriminate; reflexivity.
  - destruct H as (m & d & H).
    destruct (err_class err), (err_details err) as [[|x l]|];
      try discriminate. exists (x :: l). split; [reflexivity|discriminate].
  - intros (Hc & d & Hd & Hne). rewrite Hc, Hd.
    destruct d as [|x l]; [contradiction|]. eauto.
  - now rewrite H.
  - eexists. reflexivity.
  - intros c Hc Hz. rewrite Hc.
    destruct (Z.eqb_spec c 0); [contradiction|reflexivity].
Qed.

Lemma errorHandler_translation_witness :
  errorHandler (NotFoundError "Product with id 99 not found for deletion.")
  = {| status := 404;
       payload := ErrorBody "Product with id 99 not found for deletion."
                    None |}.
Proof.
  apply (errorHandler_translation
           "Product with id 99 not found for deletion." []
           undefined_toLowerCase).
  discriminate.
Defined.

(** ** The write routes *)

Lemma strict_eq_str_true (v : option json) (s : string) :
  strict_eq_str v s = true <-> v = Some (JStr s).
Proof.
  unfold strict_eq_str. destruct v as [[| | |t| |]|];
    try (split; [discriminate|intros [=]]).
  destruct (String.eqb_spec t s) as [->|Hne]; split; try reflexivity;
    try discriminate. intros [= E]. contradiction.
Qed.

(** A request to a write route stops at authentication (401), stops at
    validation (400), or reaches the handler with a body that satisfies the
    four rules. *)
Lemma write_route_cases API_KEY req store (h : string * middleware) :
  let out :=
    run (("loggerMiddleware", loggerMiddleware) ::
         [("authenticateMiddleware", authenticateMiddleware API_KEY);
          ("validateProduct", validateProduct); h]) req store [] in
  (status (response out) = 401 /\ store_after out = store)
  \/ (status (response out) = 400 /\ store_after out = store)
  \/ (defects (body req) = []
      /\ out = run [h] req store
                 ["loggerMiddleware"; "authenticateMiddleware";
                  "validateProduct"]).
Proof.
  intros out. subst out. rewrite run_next by reflexivity.
  destruct (authenticate_cases API_KEY req store) as [Ea|Ea].
  - rewrite (run_next _ _ _ _ _ _ Ea).
    destruct (defects (body req)) as [|d ds] eqn:Ed.
    + right; right. split; [reflexivity|].
      now rewrite run_next by (now apply validate_pass).
    + right; left.
      rewrite (run_error _ _ _ _ _ _ (ValidationError
                 "Product data validation failed." (d :: ds))).
      * split; reflexivity.
      * rewrite <- Ed. apply validate_fail. now rewrite Ed.
  - left. rewrite (run_error _ _ _ _ _ _ _ Ea). split; reflexivity.
Qed.

Lemma update_reached req store trace :
  let id := params_id req in
  let out := run [("PUT /api/products/:id", updateHandler)] req store trace in
  (status (response out) = 404 /\ store_after out = store)
  \/ (exists i old,
        list_find (fun p => Is_true (strict_eq_str (p !! "id") id)) store
        = Some (i, old)
        /\ store_after out
           = <[i := <["id" := JStr id]> (spread old (body req))]> store
        /\ response out
           = {| status := 200;
                payload := OneProduct
                             (<["id" := JStr id]> (spread old (body req))) |}).
Proof.
  intros id out. subst out id. simpl. unfold updateHandler.
  destruct (list_find _ store) as [[i old]|]; simpl.
  - right. exists i, old. auto.
  - left. auto.
Qed.

(** C9: when a PUT request is answered 200, one stored record, whose id was
    the id of the path, has been replaced by the record of the response; the
    id of that record is the id of the path, whatever [id] the body has, and
    every field that the body does not have keeps its former value. *)
Theorem update_pins_id_and_merges
    (API_KEY uuid : string) (req : Req) (store : list obj) :
  let out := handle API_KEY uuid PUT_id req store in
  status (response out) = 200 ->
  exists (i : nat) (old new : obj),
    store !! i = Some old
    /\ old !! "id" = Some (JStr (params_id req))
    /\ store_after out = <[i := new]> store
    /\ store_after out !! i = Some new
    /\ payload (response out) = OneProduct new
    /\ new !! "id" = Some (JStr (params_id req))
    /\ (forall k, body req !! k = None -> new !! k = old !! k).
Proof.
  intros out Hs. subst out. unfold handle, stack in *.
  destruct (write_route_cases API_KEY req store
              ("PUT /api/products/:id", updateHandler))
    as [[H _]|[[H _]|[_ H]]]; try (rewrite H in Hs; discriminate Hs).
  rewrite H in *. clear H.
  destruct (update_reached req store
              ["loggerMiddleware"; "authenticateMiddleware";
               "validateProduct"])
    as [[H _]|(i & old & Hf & Hst & Hres)]; [rewrite H in Hs; discriminate|].
  apply list_find_Some in Hf. destruct Hf as (Hi & Hp & _).
  apply Is_true_true, strict_eq_str_true in Hp.
  exists i, old, (<["id" := JStr (params_id req)]> (spread old (body req))).
  repeat split; try assumption.
  - rewrite Hst. apply list_lookup_insert_eq. now apply lookup_lt_Some in Hi.
  - now rewrite Hres.
  - apply lookup_insert_eq.
  - intros k Hk. destruct (decide (k = "id")) as [->|Hne].
    + now rewrite lookup_insert_eq, Hp.
    + rewrite lookup_insert_ne by congruence.
      unfold spread. now rewrite lookup_union_r.
Qed.

Lemma update_pins_id_and_merges_witness :
  let req := mkReq "/api/products/1" (Some "super-secret-key-123")
               price_update "1" ∅ in
  let out := handle "super-secret-key-123" "generated" PUT_id req products in
  exists (i : nat) (old new : obj),
    products !! i = Some old
    /\ old !! "id" = Some (JStr "1")
    /\ store_after out = <[i := new]> products
    /\ store_after out !! i = Some new
    /\ payload (response out) = OneProduct new
    /\ new !! "id" = Some (JStr "1")
    /\ (forall k, price_update !! k = None -> new !! k = old !! k).
Proof.
  apply (update_pins_id_and_merges "super-secret-key-123" "generated"
           (mkReq "/api/products/1" (Some "super-secret-key-123")
              price_update "1" ∅) products).
  vm_compute. reflexivity.
Defined.

(** ** Create *)

Lemma create_reached uuid req store trace :
  run [("POST /api/products", createHandler uuid)] req store trace
  = mkRun (trace ++ ["POST /api/products"])
      (store ++ [created_record uuid (body req)])
      {| status := 201;
         payload := OneProduct (created_record uuid (body req)) |}.
Proof. reflexivity. Qed.

(** The id of the created record is the one of the body when the body has
    one, and the generated one otherwise. *)
Lemma created_record_id uuid (b : obj) :
  created_record uuid b !! "id"
  = match b !! "id" with Some v => Some v | None => Some (JStr uuid) end.
Proof.
  unfold created_record, spread.
  rewrite lookup_insert_ne by discriminate.
  rewrite lookup_union. destruct (b !! "id") as [v|] eqn:E; simpl.
  - now rewrite union_Some_l.
  - now rewrite lookup_singleton_eq.
Qed.

(** The other fields are those of the body, and [inStock] is [true] when
    the body has none. *)
Lemma created_record_field uuid (b : obj) (k : string) :
  k <> "id" -> k <> "inStock" -> created_record uuid b !! k = b !! k.
Proof.
  intros H1 H2. unfold created_record, spread.
  rewrite lookup_insert_ne by congruence.
  rewrite lookup_union, lookup_singleton_ne by congruence.
  now destruct (b !! k).
Qed.

Lemma created_record_inStock uuid (b : obj) :
  created_record uuid b !! "inStock"
  = Some (match b !! "inStock" with Some v => v | None => JBool true end).
Proof. unfold created_record. apply lookup_insert_eq. Qed.

(** A create request that is answered 201 appended [created_record]. *)
Lemma create_cases API_KEY uuid req store :
  let out := handle API_KEY uuid POST_products req store in
  (status (response out) = 401 /\ store_after out = store)
  \/ (status (response out) = 400 /\ store_after out = store)
  \/ (defects (body req) = []
      /\ store_after out = (store ++ [created_record uuid (body req)])%list
      /\ response out
         = {| status := 201;
              payload := OneProduct (created_record uuid (body req)) |}).
Proof.
  intros out. subst out. unfold handle, stack.
  destruct (write_route_cases API_KEY req store
              ("POST /api/products", createHandler uuid))
    as [H|[H|[Hd H]]]; [now left|now right; left|].
  right; right. rewrite H, create_reached. auto.
Qed.

(** When the body has no [id] and the generated id is not in the store, the
    created record has the generated id and the ids stay pairwise
    distinct. *)
Lemma create_with_fresh_uuid API_KEY uuid req store :
  let out := handle API_KEY uuid POST_products req store in
  status (response out) = 201 ->
  body req !! "id" = None ->
  Some (JStr uuid) ∉ ids store ->
  NoDup (ids store) ->
  exists created,
    payload (response out) = OneProduct created
    /\ created !! "id" = Some (JStr uuid)
    /\ store_after out = (store ++ [created])%list
    /\ NoDup (ids (store_after out)).
Proof.
  intros out Hs Hb Hf Hn. subst out.
  destruct (create_cases API_KEY uuid req store)
    as [[H _]|[[H _]|(_ & Hst & Hres)]]; try (rewrite H in Hs; discriminate).
  exists (created_record uuid (body req)).
  assert (Hid : created_record uuid (body req) !! "id" = Some (JStr uuid))
    by now rewrite created_record_id, Hb.
  rewrite Hres, Hst. repeat split; try assumption.
  unfold ids in *. rewrite fmap_app. apply NoDup_app. split; [assumption|].
  split.
  - intros x Hx Hx'. simpl in Hx'. apply list_elem_of_singleton in Hx'.
    subst x. now rewrite Hid in Hx.
  - simpl. apply NoDup_singleton.
Qed.

(** C1, on the code: a create request that passes authentication and
    validation and whose body has [id: "1"] is answered 201 with a record
    whose id is "1", the id of the body and of a product already stored, not
    the generated one; the store then holds two products with id "1". *)
Theorem create_takes_id_from_body (uuid : string) :
  let req := mkReq "/api/products" (Some "super-secret-key-123")
               duplicate_id_payload EmptyString ∅ in
  let out := handle "super-secret-key-123" uuid POST_products req products in
  exists created,
    response out = {| status := 201; payload := OneProduct created |}
    /\ created !! "id" = Some (JStr "1")
    /\ Some (JStr "1") ∈ ids products
    /\ ids (store_after out)
       = [Some (JStr "1"); Some (JStr "2"); Some (JStr "3"); Some (JStr "1")]
    /\ ~ NoDup (ids (store_after out)).
Proof.
  intros req out.
  exists (created_record uuid duplicate_id_payload).
  assert (Hids : ids (store_after out)
     = [Some (JStr "1"); Some (JStr "2"); Some (JStr "3"); Some (JStr "1")]).
  { subst out req. vm_compute. reflexivity. }
  split; [reflexivity|]. split; [now rewrite created_record_id|].
  split; [apply list_elem_of_here|]. split; [exact Hids|].
  rewrite Hids. intros Hn. apply NoDup_cons in Hn. destruct Hn as [Hn _].
  apply Hn. do 2 apply list_elem_of_further. apply list_elem_of_here.
Qed.

(** ** Create, then get *)

Lemma get_found API_KEY uuid req store (p : obj) :
  List.find (fun p : obj => strict_eq_str (p !! "id") (params_id req)) store
  = Some p ->
  handle API_KEY uuid GET_id req store
  = mkRun ["loggerMiddleware"; "GET /api/products/:id"] store
      {| status := 200; payload := OneProduct p |}.
Proof.
  intros Hf. unfold handle, stack. rewrite run_next by reflexivity.
  simpl. unfold getHandler. now rewrite Hf.
Qed.



(** C10, on the code: after the create request whose valid body has
    [id: "1"], fetching the id of the 201 response ("1") is answered 200
    with the Laptop of the seed, which is not the created record. *)
Theorem get_after_create_finds_older_record (uuid uuid' : string) :
  let req := mkReq "/api/products" (Some "super-secret-key-123")
               duplicate_id_payload EmptyString ∅ in
  let out := handle "super-secret-key-123" uuid POST_products req products in
  let fetched :=
    handle "super-secret-key-123" uuid' GET_id
      (mkReq "/api/products/1" None ∅ "1" ∅) (store_after out) in
  exists created,
    response out = {| status := 201; payload := OneProduct created |}
    /\ created !! "id" = Some (JStr "1")
    /\ created !! "name" = Some (JStr "Tablet")
    /\ response fetched
       = {| status := 200;
            payload := OneProduct
              (product "1" "Laptop" "High-performance laptop with 16GB RAM"
                 1200 "electronics" true) |}
    /\ payload (response fetched) <> OneProduct created.
Proof.
  intros req out fetched.
  exists (created_record uuid duplicate_id_payload).
  assert (Hf : response fetched
       = {| status := 200;
            payload := OneProduct
              (product "1" "Laptop" "High-performance laptop with 16GB RAM"
                 1200 "electronics" true) |}).
  { subst fetched. erewrite get_found; reflexivity. }
  split; [reflexivity|]. split; [now rewrite created_record_id|].
  split; [now rewrite created_record_field|]. split; [exact Hf|].
  rewrite Hf. simpl. intros E.
  apply (f_equal (fun pl => match pl with
                            | OneProduct m => m !! "name"
                            | _ => None
                            end)) in E.
  rewrite created_record_field in E by discriminate. discriminate E.
Qed.

(** ** Search *)

Lemma call_toLowerCase_throws (v : option json) (e : JsError) :
  call_toLowerCase v = inl e ->
  is_string v = false /\ err_class e = ErrorC /\ err_statusCode e = None
  /\ err_message e <> EmptyString.
Proof.
  destruct v as [[| | | | |]|]; simpl; intros [= <-]; repeat split;
    discriminate.
Qed.

Lemma search_match_searchable (q : string) (p : obj) :
  searchable q p = true ->
  search_match (toLowerCase q) p
  = inr (contains_ci q (p !! "name") || contains_ci q (p !! "description")).
Proof.
  unfold searchable, search_match, contains_ci.
  destruct (p !! "name") as [[| | |s| |]|]; simpl; try discriminate.
  destruct (includes (toLowerCase s) (toLowerCase q)); simpl;
    [reflexivity|].
  destruct (p !! "description") as [[| | |d| |]|]; simpl; try discriminate.
  reflexivity.
Qed.

Lemma search_match_throws (q : string) (p : obj) :
  searchable q p = false ->
  exists e, search_match (toLowerCase q) p = inl e.
Proof.
  unfold searchable, search_match, contains_ci.
  destruct (p !! "name") as [[| | |s| |]|]; simpl; eauto.
  destruct (includes (toLowerCase s) (toLowerCase q)); simpl;
    [discriminate|].
  destruct (p !! "description") as [[| | |d| |]|]; simpl; eauto.
  discriminate.
Qed.

Lemma search_match_error (sq : string) (p : obj) (e : JsError) :
  search_match sq p = inl e ->
  err_class e = ErrorC /\ err_statusCode e = None
  /\ err_message e <> EmptyString.
Proof.
  unfold search_match.
  destruct (call_toLowerCase (p !! "name")) as [e1|n] eqn:E1; simpl.
  - intros [= <-]. apply call_toLowerCase_throws in E1. tauto.
  - destruct (includes n sq); [discriminate|].
    destruct (call_toLowerCase (p !! "description")) as [e2|d] eqn:E2; simpl;
      [|discriminate].
    intros [= <-]. apply call_toLowerCase_throws in E2. tauto.
Qed.

Lemma filter_throws_ok {A} (f : A -> throws bool) (g : A -> bool)
    (l : list A) :
  (forall x, x ∈ l -> f x = inr (g x)) ->
  filter_throws f l = inr (List.filter g l).
Proof.
  induction l as [|x l IH]; intros H; simpl; [reflexivity|].
  rewrite (H x) by apply list_elem_of_here. simpl.
  rewrite IH by (intros y Hy; apply H; now apply list_elem_of_further).
  simpl. now destruct (g x).
Qed.

Lemma filter_throws_error {A} (f : A -> throws bool) (l : list A) (x : A)
    (e : JsError) :
  x ∈ l -> f x = inl e ->
  exists y e', y ∈ l /\ f y = inl e' /\ filter_throws f l = inl e'.
Proof.
  induction l as [|z l IH]; intros Hin Hx.
  - now apply not_elem_of_nil in Hin.
  - simpl. destruct (f z) as [ez|b] eqn:Ez; simpl.
    + exists z, ez. split; [apply list_elem_of_here|auto].
    + apply elem_of_cons in Hin. destruct Hin as [->|Hin];
        [congruence|].
      destruct (IH Hin Hx) as (y & e' & Hy & Hfy & Hft).
      exists y, e'. split; [now apply list_elem_of_further|].
      split; [assumption|]. now rewrite Hft.
Qed.

Lemma search_reached API_KEY uuid req store (q : string) :
  query req !! "q" = Some (QStr q) -> q <> EmptyString ->
  handle API_KEY uuid GET_search req store
  = mkRun ["loggerMiddleware"; "GET /api/products/search"] store
      match filter_throws (search_match (toLowerCase q)) store with
      | inl e => errorHandler e
      | inr found => {| status := 200; payload := ProductList found |}
      end.
Proof.
  intros Hq Hne. unfold handle, stack. rewrite run_next by reflexivity.
  simpl. unfold searchHandler. rewrite Hq. simpl.
  destruct (String.eqb_spec q EmptyString) as [?|_]; [contradiction|]. simpl.
  now destruct (filter_throws _ store).
Qed.

(** Without [q], or with an empty one, the search is answered 400. *)
Lemma search_without_query API_KEY uuid req store :
  query req !! "q" = None \/ query req !! "q" = Some (QStr EmptyString) ->
  handle API_KEY uuid GET_search req store
  = mkRun ["loggerMiddleware"; "GET /api/products/search"] store
      {| status := 400;
         payload := ErrorBody "Search query (q) parameter is required."
                      None |}.
Proof.
  intros Hq. unfold handle, stack. rewrite run_next by reflexivity.
  simpl. unfold searchHandler. now destruct Hq as [-> | ->].
Qed.

(** On a store whose products all have a name and a description, the search
    is answered 200 with all the products whose name or description contains
    [q]; the list is empty when there is none. *)
Lemma search_described API_KEY uuid req store (q : string) :
  query req !! "q" = Some (QStr q) -> q <> EmptyString ->
  (forall p, p ∈ store -> searchable q p = true) ->
  handle API_KEY uuid GET_search req store
  = mkRun ["loggerMiddleware"; "GET /api/products/search"] store
      {| status := 200; payload := ProductList (matching q store) |}.
Proof.
  intros Hq Hne Hs. rewrite (search_reached _ _ _ _ q) by assumption.
  unfold matching.
  erewrite filter_throws_ok; [reflexivity|].
  intros p Hp. simpl. now apply search_match_searchable, Hs.
Qed.

Lemma store_with_lamp_eq :
  store_with_lamp = (products ++ [created_record "4" lamp_payload])%list.
Proof. reflexivity. Qed.

Lemma lamp_without_description :
  created_record "4" lamp_payload ∈ store_with_lamp
  /\ created_record "4" lamp_payload !! "description" = None.
Proof.
  rewrite store_with_lamp_eq. split.
  - apply elem_of_app. right. apply list_elem_of_here.
  - now rewrite created_record_field.
Qed.

(** C2, as stated, fails: the store holds a product without description,
    created by a valid request, and the search for "lamp" is answered 200
    with that product, because its name contains "lamp" and the description
    is then not read. *)
Lemma search_missing_description_counterexample :
  let out := handle "super-secret-key-123" EmptyString GET_search
               (search_request "lamp") store_with_lamp in
  (exists p, p ∈ store_with_lamp /\ p !! "description" = None)
  /\ response out
     = {| status := 200;
          payload := ProductList [created_record "4" lamp_payload] |}.
Proof.
  split.
  - exists (created_record "4" lamp_payload). apply lamp_without_description.
  - vm_compute. reflexivity.
Qed.

(** C2, amended: when the store holds a product without description whose
    name does not contain [q] (case-insensitively), every search with that
    non-empty [q] is answered 500 with an error body, not with a list, also
    when no product matches [q]; the store is left as it was. *)
Theorem search_fails_on_missing_description
    (API_KEY uuid : string) (req : Req) (store : list obj) (q : string)
    (p : obj) :
  query req !! "q" = Some (QStr q) ->
  q <> EmptyString ->
  p ∈ store ->
  p !! "description" = None ->
  contains_ci q (p !! "name") = false ->
  let out := handle API_KEY uuid GET_search req store in
  status (response out) = 500
  /\ (exists m, m <> EmptyString /\ payload (response out) = ErrorBody m None)
  /\ store_after out = store.
Proof.
  intros Hq Hne Hin Hd Hn out. subst out.
  rewrite (search_reached _ _ _ _ q) by assumption. simpl.
  assert (Hs : searchable q p = false).
  { unfold searchable. rewrite Hn, Hd. apply andb_false_r. }
  destruct (search_match_throws q p Hs) as [e He].
  destruct (filter_throws_error _ _ _ _ Hin He) as (y & e' & _ & Hy & ->).
  apply search_match_error in Hy. destruct Hy as (Hc & Hsc & Hm).
  unfold errorHandler. rewrite Hc, Hsc. simpl.
  destruct (String.eqb_spec (err_message e') EmptyString) as [?|_];
    [contradiction|].
  split; [reflexivity|]. split; [|reflexivity].
  exists (err_message e'). auto.
Qed.

Lemma search_fails_on_missing_description_witness :
  let out := handle "super-secret-key-123" EmptyString GET_search
               (search_request "zzz") store_with_lamp in
  status (response out) = 500
  /\ (exists m, m <> EmptyString /\ payload (response out) = ErrorBody m None)
  /\ store_after out = store_with_lamp.
Proof.
  apply (search_fails_on_missing_description "super-secret-key-123" EmptyString
           (search_request "zzz") store_with_lamp "zzz"
           (created_record "4" lamp_payload)).
  - reflexivity.
  - discriminate.
  - apply lamp_without_description.
  - apply lamp_without_description.
  - vm_compute. reflexivity.
Defined.

(** C4, on the code: in the store that holds the product created without
    description, no name and no description contains "zzz", and the search
    for "zzz" is answered 500, not 200 with an empty list. *)
Theorem search_without_match_fails :
  let out := handle "super-secret-key-123" EmptyString GET_search
               (search_request "zzz") store_with_lamp in
  matching "zzz" store_with_lamp = []
  /\ response out
     = {| status := 500;
          payload :=
            ErrorBody
              "Cannot read properties of undefined (reading 'toLowerCase')"
              None |}.
Proof. split; vm_compute; reflexivity. Qed.

(** ** Pagination *)

Lemma positions_lookup {A} (l : list A) (a b : Z) (i : nat) (x : A) :
  0 <= a ->
  positions l a b !! i = Some x <->
  l !! (Z.to_nat a + i)%nat = Some x /\ a + Z.of_nat i < b.
Proof.
  intros Ha. unfold positions. rewrite lookup_take_Some, lookup_drop.
  split; intros [H1 H2]; (split; [assumption|lia]).
Qed.


(** *** Rounding *)





(** *** Slices *)






(** The list route never changes the store. *)
Lemma list_store API_KEY uuid req store :
  store_after (handle API_KEY uuid GET_products req store) = store.
Proof.
  unfold handle, stack. rewrite run_next by reflexivity.
  simpl. unfold listHandler.
  destruct (qv_truthy (query req !! "category")); simpl; [|reflexivity].
  now destruct (filter_throws _ store).
Qed.

(** The answer of the list route when the category of the query is absent
    or a string, on a store whose categories are strings. *)
Lemma list_reached API_KEY uuid req store (cat : option string) :
  categorized store ->
  query req !! "category" = QStr <$> cat ->
  let filtered := category_filter cat store in
  handle API_KEY uuid GET_products req store
  = mkRun ["loggerMiddleware"; "GET /api/products"] store
      {| status := 200;
         payload := Page
           {| totalItems := Z.of_nat (List.length filtered);
              totalPages :=
                json_number
                  (ceil_div (Z.of_nat (List.length filtered))
                     (requested_limit req));
              currentPage := json_number (requested_page req);
              results_products :=
                slice filtered
                  (num_mul (num_sub (requested_page req) (Finite 1))
                     (requested_limit req))
                  (num_mul (requested_page req) (requested_limit req)) |} |}.
Proof.
  intros Hc Hq filtered. subst filtered.
  unfold handle, stack. rewrite run_next by reflexivity.
  simpl. unfold listHandler, category_filter. rewrite Hq.
  destruct cat as [c|]; simpl; [|reflexivity].
  destruct (String.eqb c EmptyString); simpl; [reflexivity|].
  rewrite (filter_throws_ok _ (in_category c)); [reflexivity|].
  intros x Hx. apply (proj1 (Forall_forall _ _) Hc) in Hx.
  unfold in_category.
  destruct (x !! "category") as [[| | |t| |]|]; try discriminate.
  reflexivity.
Qed.




(** ** The stores the server can reach *)

Lemma well_formed_categorized store : well_formed store -> categorized store.
Proof.
  unfold well_formed, categorized. intros H.
  eapply Forall_impl; [exact H|]. simpl. tauto.
Qed.

Lemma valid_body_strings (b : obj) :
  defects b = [] ->
  is_string (b !! "name") = true /\ is_string (b !! "category") = true.
Proof.
  intros H. apply defects_nil in H. destruct H as (Hn & _ & Hc & _).
  unfold name_rule, category_rule in *.
  destruct (b !! "name") as [[| | | | |]|]; try discriminate.
  destruct (b !! "category") as [[| | | | |]|]; try discriminate.
  auto.
Qed.

Lemma updated_record_field (id : string) (old b : obj) (k : string) :
  k <> "id" -> is_Some (b !! k) ->
  (<["id" := JStr id]> (spread old b)) !! k = b !! k.
Proof.
  intros Hk Hb. rewrite lookup_insert_ne by congruence.
  unfold spread. now apply lookup_union_l'.
Qed.

Lemma is_string_is_Some (v : option json) : is_string v = true -> is_Some v.
Proof. destruct v; [eauto|discriminate]. Qed.

Lemma handle_well_formed API_KEY uuid r req store :
  well_formed store ->
  well_formed (store_after (handle API_KEY uuid r req store)).
Proof.
  intros Hwf. destruct r.
  - now rewrite list_store.
  - unfold handle, stack. rewrite run_next by reflexivity.
    simpl. unfold searchHandler. destruct (negb _); [assumption|].
    destruct (query_toLowerCase _ _); simpl; [assumption|].
    now destruct (filter_throws _ store).
  - unfold handle, stack. rewrite run_next by reflexivity.
    simpl. unfold getHandler. now destruct (List.find _ store).
  - destruct (create_cases API_KEY uuid req store)
      as [[_ ->]|[[_ ->]|(Hd & -> & _)]]; try assumption.
    apply Forall_app_2; [assumption|]. constructor; [|constructor].
    rewrite !created_record_field by discriminate.
    now apply valid_body_strings.
  - unfold handle, stack.
    destruct (write_route_cases API_KEY req store
                ("PUT /api/products/:id", updateHandler))
      as [[_ ->]|[[_ ->]|[Hd ->]]]; try assumption.
    destruct (update_reached req store
                ["loggerMiddleware"; "authenticateMiddleware";
                 "validateProduct"])
      as [[_ ->]|(i & old & _ & -> & _)]; [assumption|].
    apply Forall_insert; [assumption|].
    apply valid_body_strings in Hd. destruct Hd as [Hn Hc].
    rewrite !updated_record_field
      by (try discriminate; now apply is_string_is_Some).
    auto.
  - unfold handle, stack. rewrite run_next by reflexivity.
    simpl. unfold deleteHandler. destruct (_ =? _)%nat; [assumption|].
    simpl. apply Forall_forall. intros p Hp.
    apply list_elem_of_In, filter_In in Hp. destruct Hp as [Hp _].
    apply list_elem_of_In in Hp. revert p Hp. now apply Forall_forall.
Qed.

(** In every state of the store that the server can reach, the products
    have a name and a category that are strings. *)
Lemma reachable_well_formed API_KEY store :
  reachable API_KEY store -> well_formed store.
Proof.
  induction 1 as [|store uuid r req _ IH].
  - repeat constructor.
  - now apply handle_well_formed.
Qed.

(** When [DELETE] finds nothing to remove, the filtered list it assigns to
    the store is the store itself. *)
Lemma filter_same_length {A} (f : A -> bool) (l : list A) :
  List.length (List.filter f l) = List.length l -> List.filter f l = l.
Proof.
  induction l as [|x l IH]; simpl; [reflexivity|].
  pose proof (filter_length_le f l) as Hle.
  destruct (f x); simpl; intros H.
  - f_equal. apply IH. lia.
  - lia.
Qed.




End Props.

(* ===================================================================== *)
(** * Further properties of the handlers *)
(* ===================================================================== *)

Module Extra.
Import Js Server Props.

(** ** Delete and get *)

Lemma strict_eq_str_false (v : option json) (s : string) :
  strict_eq_str v s = false <-> v <> Some (JStr s).
Proof.
  rewrite <- strict_eq_str_true. destruct (strict_eq_str v s); split;
    congruence.
Qed.

Lemma filter_length_lt {A} (f : A -> bool) (l : list A) (x : A) :
  x ∈ l -> f x = false ->
  (List.length (List.filter f l) < List.length l)%nat.
Proof.
  induction l as [|y l IH]; intros Hin Hx.
  - now apply not_elem_of_nil in Hin.
  - simpl. pose proof (filter_length_le f l) as Hle.
    apply elem_of_cons in Hin. destruct Hin as [->|Hin].
    + rewrite Hx. lia.
    + specialize (IH Hin Hx). destruct (f y); simpl; lia.
Qed.

Lemma filter_all {A} (f : A -> bool) (l : list A) :
  (forall x, x ∈ l -> f x = true) -> List.filter f l = l.
Proof.
  induction l as [|y l IH]; intros H; simpl; [reflexivity|].
  rewrite (H y) by apply list_elem_of_here. f_equal. apply IH.
  intros x Hx. apply H. now apply list_elem_of_further.
Qed.

Lemma filter_sublist {A} (f : A -> bool) (l : list A) :
  List.filter f l `sublist_of` l.
Proof.
  induction l as [|y l IH]; simpl; [constructor|].
  destruct (f y); now constructor.
Qed.

Lemma elem_of_without_id (id : string) (store : list obj) (p : obj) :
  p ∈ without_id id store <-> p ∈ store /\ p !! "id" <> Some (JStr id).
Proof.
  unfold without_id. rewrite !list_elem_of_In, filter_In, negb_true_iff.
  now rewrite strict_eq_str_false.
Qed.

Lemma not_found_message (id suffix : string) :
  errorHandler (NotFoundError ("Product with id " ++ id ++ suffix))
  = {| status := 404;
       payload := ErrorBody ("Product with id " ++ id ++ suffix) None |}.
Proof. reflexivity. Qed.

Lemma delete_reached API_KEY uuid req store :
  let id := params_id req in
  handle API_KEY uuid DELETE_id req store
  = mkRun ["loggerMiddleware"; "DELETE /api/products/:id"]
      (if (List.length (without_id id store) =? List.length store)%nat
       then store else without_id id store)
      (if (List.length (without_id id store) =? List.length store)%nat
       then {| status := 404;
               payload :=
                 ErrorBody
                   ("Product with id " ++ id ++ " not found for deletion.")
                   None |}
       else {| status := 204; payload := Empty |}).
Proof.
  intros id. unfold handle, stack. rewrite run_next by reflexivity.
  simpl. unfold deleteHandler. fold (without_id id store). fold id.
  now destruct (_ =? _)%nat.
Qed.

(** X1: a DELETE request for an id that some stored product has is answered
    204 with an empty body, whatever its headers (the route does not enter
    the authentication); the store becomes the list, in the same order, of
    exactly the products whose id is not the id of the path, so every
    product with that id is removed and every other product is kept as often
    as it was stored. *)
Theorem delete_removes_every_match
    (API_KEY uuid : string) (req : Req) (store : list obj) :
  (exists p, p ∈ store /\ p !! "id" = Some (JStr (params_id req))) ->
  let out := handle API_KEY uuid DELETE_id req store in
  response out = {| status := 204; payload := Empty |}
  /\ visited out = ["loggerMiddleware"; "DELETE /api/products/:id"]
  /\ store_after out
     = List.filter
         (fun p : obj => negb (strict_eq_str (p !! "id") (params_id req)))
         store
  /\ store_after out `sublist_of` store
  /\ (forall p, p ∈ store_after out <->
                p ∈ store /\ p !! "id" <> Some (JStr (params_id req))).
Proof.
  intros (p & Hin & Hid) out. subst out. rewrite delete_reached.
  assert (Hlt : (List.length (without_id (params_id req) store)
                 < List.length store)%nat).
  { apply (filter_length_lt _ _ p Hin).
    apply negb_false_iff. now apply strict_eq_str_true. }
  destruct (Nat.eqb_spec (List.length (without_id (params_id req) store))
              (List.length store)) as [E|_]; [lia|]. simpl.
  split; [reflexivity|]. split; [reflexivity|]. split; [reflexivity|].
  split; [apply filter_sublist|]. intros q. apply elem_of_without_id.
Qed.

Lemma delete_removes_every_match_witness :
  let out := handle "super-secret-key-123" EmptyString DELETE_id
               (plain_request "2") products in
  response out = {| status := 204; payload := Empty |}
  /\ visited out = ["loggerMiddleware"; "DELETE /api/products/:id"]
  /\ store_after out
     = List.filter
         (fun p : obj => negb (strict_eq_str (p !! "id") "2")) products
  /\ store_after out `sublist_of` products
  /\ (forall p, p ∈ store_after out <->
                p ∈ products /\ p !! "id" <> Some (JStr "2")).
Proof.
  apply (delete_removes_every_match "super-secret-key-123" EmptyString
           (plain_request "2") products).
  exists (product "2" "Smartphone" "Latest model with 128GB storage" 800
            "electronics" true).
  split; [|reflexivity].
  apply list_elem_of_further, list_elem_of_here.
Defined.

Lemma without_id_absent (id : string) (store : list obj) :
  (forall p, p ∈ store -> p !! "id" <> Some (JStr id)) ->
  without_id id store = store.
Proof.
  intros Hno. apply filter_all. intros x Hx. apply negb_true_iff.
  now apply strict_eq_str_false, Hno.
Qed.

Lemma find_absent (id : string) (store : list obj) :
  (forall p, p ∈ store -> p !! "id" <> Some (JStr id)) ->
  List.find (fun p : obj => strict_eq_str (p !! "id") id) store = None.
Proof.
  intros Hno. destruct (List.find _ store) as [p|] eqn:E; [|reflexivity].
  apply find_some in E. destruct E as [Hin Hp].
  apply list_elem_of_In in Hin. apply strict_eq_str_true in Hp.
  now apply Hno in Hin.
Qed.

(** X2: a DELETE request for an id that no stored product has is answered
    404 with the message "Product with id <id> not found for deletion." and
    leaves the store as it was. *)
Theorem delete_missing_not_found
    (API_KEY uuid : string) (req : Req) (store : list obj) :
  (forall p, p ∈ store -> p !! "id" <> Some (JStr (params_id req))) ->
  let out := handle API_KEY uuid DELETE_id req store in
  response out
  = {| status := 404;
       payload :=
         ErrorBody
           ("Product with id " ++ params_id req ++ " not found for deletion.")
           None |}
  /\ store_after out = store.
Proof.
  intros Hno out. subst out. rewrite delete_reached.
  rewrite without_id_absent by assumption.
  rewrite Nat.eqb_refl. split; reflexivity.
Qed.

Lemma delete_missing_not_found_witness :
  let out := handle "super-secret-key-123" EmptyString DELETE_id
               (plain_request "99") products in
  response out
  = {| status := 404;
       payload := ErrorBody "Product with id 99 not found for deletion."
                    None |}
  /\ store_after out = products.
Proof.
  apply (delete_missing_not_found "super-secret-key-123" EmptyString
           (plain_request "99") products).
  intros p Hp. apply list_elem_of_In in Hp. simpl in Hp.
  destruct Hp as [<-|[<-|[<-|[]]]]; discriminate.
Defined.

(** After a DELETE request, whatever its answer, no product has the id of
    the path. *)
Lemma delete_leaves_no_match API_KEY uuid req store (p : obj) :
  p ∈ store_after (handle API_KEY uuid DELETE_id req store) ->
  p !! "id" <> Some (JStr (params_id req)).
Proof.
  rewrite delete_reached. simpl.
  destruct (Nat.eqb_spec (List.length (without_id (params_id req) store))
              (List.length store)) as [E|_].
  - intros Hp. apply filter_same_length in E. rewrite <- E in Hp.
    now apply elem_of_without_id in Hp.
  - intros Hp. now apply elem_of_without_id in Hp.
Qed.

(** X3: delete is not idempotent: the same DELETE request sent again is
    always answered 404, and leaves the store as the first request left
    it. *)
Theorem delete_twice_not_found
    (API_KEY uuid uuid' : string) (req : Req) (store : list obj) :
  let first := handle API_KEY uuid DELETE_id req store in
  let second := handle API_KEY uuid' DELETE_id req (store_after first) in
  status (response second) = 404
  /\ store_after second = store_after first.
Proof.
  intros first second. subst second. rewrite delete_reached.
  rewrite without_id_absent
    by (intros p; apply delete_leaves_no_match).
  rewrite Nat.eqb_refl. split; reflexivity.
Qed.

Lemma get_reached API_KEY uuid req store :
  handle API_KEY uuid GET_id req store
  = mkRun ["loggerMiddleware"; "GET /api/products/:id"] store
      match List.find
              (fun p : obj => strict_eq_str (p !! "id") (params_id req))
              store with
      | Some p => {| status := 200; payload := OneProduct p |}
      | None =>
          {| status := 404;
             payload :=
               ErrorBody ("Product with id " ++ params_id req ++ " not found.")
                 None |}
      end.
Proof.
  unfold handle, stack. rewrite run_next by reflexivity.
  simpl. unfold getHandler. now destruct (List.find _ store).
Qed.

(** X4: a GET request for a product is answered either 200 with a stored
    product whose id is the id of the path, the first of the store when
    there are several, or 404 with the message "Product with id <id> not
    found." when no stored product has that id; the store is not
    changed. *)
Theorem get_by_id_found_or_not
    (API_KEY uuid : string) (req : Req) (store : list obj) :
  let id := params_id req in
  let out := handle API_KEY uuid GET_id req store in
  store_after out = store
  /\ ((exists (i : nat) (p : obj),
         response out = {| status := 200; payload := OneProduct p |}
         /\ store !! i = Some p
         /\ p !! "id" = Some (JStr id)
         /\ (forall j q, (j < i)%nat -> store !! j = Some q ->
                         q !! "id" <> Some (JStr id)))
      \/ (response out
          = {| status := 404;
               payload :=
                 ErrorBody ("Product with id " ++ id ++ " not found.") None |}
          /\ forall p, p ∈ store -> p !! "id" <> Some (JStr id))).
Proof.
  intros id out. subst out. rewrite get_reached. split; [reflexivity|].
  simpl. fold id. clear API_KEY uuid.
  induction store as [|x store IH]; simpl.
  - right. split; [reflexivity|]. intros p Hp.
    now apply not_elem_of_nil in Hp.
  - destruct (strict_eq_str (x !! "id") id) eqn:Ex.
    + left. exists 0%nat, x. split; [reflexivity|]. split; [reflexivity|].
      split; [now apply strict_eq_str_true|]. intros j q Hj. lia.
    + apply strict_eq_str_false in Ex.
      destruct IH as [(i & p & Hres & Hi & Hid & Hfirst)|[Hres Hno]].
      * left. exists (S i), p. repeat split; try assumption.
        intros [|j] q Hj Hq; simpl in Hq; [congruence|].
        apply (Hfirst j); [lia|assumption].
      * right. split; [exact Hres|]. intros p Hp.
        apply elem_of_cons in Hp. destruct Hp as [->|Hp]; auto.
Qed.

(** X5: after a DELETE request for an id, whatever its answer, the GET
    request for that id is answered 404, for every id whose GET path reaches
    the [:id] route, that is, every non-empty id but "search" and "stats"
    (in any case), which the routes registered before it answer. *)
Theorem delete_then_get_not_found
    (API_KEY uuid uuid' : string) (req : Req) (store : list obj) :
  reserved_segment (params_id req) = false ->
  let deleted := handle API_KEY uuid DELETE_id req store in
  status (response (handle API_KEY uuid' GET_id req (store_after deleted)))
  = 404.
Proof.
  intros _ deleted. rewrite get_reached. simpl.
  rewrite find_absent; [reflexivity|].
  intros p. apply delete_leaves_no_match.
Qed.

Lemma delete_then_get_not_found_witness :
  let deleted := handle "super-secret-key-123" EmptyString DELETE_id
                   (plain_request "2") products in
  status
    (response
       (handle "super-secret-key-123" EmptyString GET_id
          (plain_request "2") (store_after deleted)))
  = 404.
Proof.
  apply (delete_then_get_not_found "super-secret-key-123" EmptyString
           EmptyString (plain_request "2") products).
  reflexivity.
Defined.

(** ** Update *)

(** Authentication and validation do not look at the store: a request to a
    write route is either rejected with the same response on every store, or
    reaches the handler on every store. *)
Lemma write_route_gate API_KEY req (h : string * middleware) :
  (exists trace res,
     (status res = 401 \/ status res = 400)
     /\ forall store,
         run (("loggerMiddleware", loggerMiddleware) ::
              [("authenticateMiddleware", authenticateMiddleware API_KEY);
               ("validateProduct", validateProduct); h]) req store []
         = mkRun trace store res)
  \/ (authenticateMiddleware API_KEY req [] = Next
      /\ defects (body req) = []
      /\ forall store,
          run (("loggerMiddleware", loggerMiddleware) ::
               [("authenticateMiddleware", authenticateMiddleware API_KEY);
                ("validateProduct", validateProduct); h]) req store []
          = run [h] req store
              ["loggerMiddleware"; "authenticateMiddleware";
               "validateProduct"]).
Proof.
  destruct (authenticate_cases API_KEY req []) as [Ea|Ea].
  - destruct (defects (body req)) as [|d ds] eqn:Ed.
    + right. split; [assumption|]. split; [reflexivity|]. intros store.
      rewrite run_next by reflexivity.
      rewrite run_next by exact Ea.
      now rewrite run_next by (now apply validate_pass).
    + left.
      exists ["loggerMiddleware"; "authenticateMiddleware";
              "validateProduct"],
        (errorHandler (ValidationError "Product data validation failed."
                         (d :: ds))).
      split; [right; reflexivity|]. intros store.
      rewrite run_next by reflexivity.
      rewrite run_next by exact Ea.
      rewrite (run_error _ _ _ _ _ _ (ValidationError
                 "Product data validation failed." (d :: ds))).
      * reflexivity.
      * rewrite <- Ed. apply validate_fail. now rewrite Ed.
  - left.
    exists ["loggerMiddleware"; "authenticateMiddleware"],
      (errorHandler (AuthenticationError
         "Authentication failed. Invalid or missing API key.")).
    split; [left; reflexivity|]. intros store.
    rewrite run_next by reflexivity.
    now rewrite (run_error _ _ _ _ store _ _ Ea).
Qed.

Lemma authenticate_Next_iff API_KEY req store :
  authenticateMiddleware API_KEY req store = Next <->
  header_x_api_key req = Some API_KEY /\ API_KEY <> EmptyString.
Proof.
  unfold authenticateMiddleware.
  destruct (header_x_api_key req) as [k|]; simpl.
  - destruct (String.eqb_spec k EmptyString) as [->|Hk]; simpl.
    + split; [discriminate|]. intros [[= <-] H]. contradiction.
    + destruct (String.eqb_spec k API_KEY) as [->|Hne]; simpl.
      * split; auto.
      * split; [discriminate|]. intros [[= ->] _]. contradiction.
  - split; [discriminate|]. intros [[=] _].
Qed.

(** A request that passes both gates reaches the handler. *)
Lemma write_route_reaches API_KEY req store (h : string * middleware) :
  authenticateMiddleware API_KEY req [] = Next ->
  defects (body req) = [] ->
  run (("loggerMiddleware", loggerMiddleware) ::
       [("authenticateMiddleware", authenticateMiddleware API_KEY);
        ("validateProduct", validateProduct); h]) req store []
  = run [h] req store
      ["loggerMiddleware"; "authenticateMiddleware"; "validateProduct"].
Proof.
  intros Ha Hd. rewrite run_next by reflexivity.
  rewrite run_next by exact Ha.
  now rewrite run_next by now apply validate_pass.
Qed.

Lemma write_route_pass API_KEY req store (h : string * middleware) :
  API_KEY <> EmptyString ->
  header_x_api_key req = Some API_KEY ->
  defects (body req) = [] ->
  run (("loggerMiddleware", loggerMiddleware) ::
       [("authenticateMiddleware", authenticateMiddleware API_KEY);
        ("validateProduct", validateProduct); h]) req store []
  = run [h] req store
      ["loggerMiddleware"; "authenticateMiddleware"; "validateProduct"].
Proof.
  intros Hne Hk Hd. apply write_route_reaches; [|assumption].
  now apply authenticate_Next_iff.
Qed.

Lemma list_find_insert_first {A} (P : A -> Prop) `{forall x, Decision (P x)}
    (l : list A) (i : nat) (x y : A) :
  list_find P l = Some (i, x) -> P y ->
  list_find P (<[i := y]> l) = Some (i, y).
Proof.
  intros Hf Hy. apply list_find_Some in Hf. destruct Hf as (Hi & _ & Hlt).
  apply list_find_Some. split; [|split; [assumption|]].
  - apply list_lookup_insert_eq. now apply lookup_lt_Some in Hi.
  - intros j z Hj Hji. rewrite list_lookup_insert_ne in Hj by lia.
    now apply (Hlt j).
Qed.

Lemma find_list_find {A} (f : A -> bool) (l : list A) :
  List.find f l = snd <$> list_find (fun x => Is_true (f x)) l.
Proof.
  induction l as [|x l IH]; simpl; [reflexivity|].
  destruct (f x) eqn:E; simpl; [reflexivity|].
  rewrite IH. now destruct (list_find _ l) as [[? ?]|].
Qed.

(** The record that an update stores again under the id of the path. *)
Lemma updated_record_id (id : string) (old b : obj) :
  (<["id" := JStr id]> (spread old b)) !! "id" = Some (JStr id).
Proof. apply lookup_insert_eq. Qed.

Lemma updated_record_again (id : string) (old b : obj) :
  <["id" := JStr id]> (spread (<["id" := JStr id]> (spread old b)) b)
  = <["id" := JStr id]> (spread old b).
Proof.
  apply map_eq. intros k. destruct (decide (k = "id")) as [->|Hk].
  - now rewrite !lookup_insert_eq.
  - rewrite !lookup_insert_ne by congruence. unfold spread.
    rewrite !lookup_union. rewrite lookup_insert_ne by congruence.
    rewrite lookup_union. now destruct (b !! k), (old !! k).
Qed.

(** X6: a PUT request that passes authentication and validation for an id
    that no stored product has is answered 404 with the message "Product
    with id <id> not found for update." and leaves the store as it was; no
    record is created. *)
Theorem update_missing_not_found
    (API_KEY uuid : string) (req : Req) (store : list obj) :
  API_KEY <> EmptyString ->
  header_x_api_key req = Some API_KEY ->
  defects (body req) = [] ->
  (forall p, p ∈ store -> p !! "id" <> Some (JStr (params_id req))) ->
  let out := handle API_KEY uuid PUT_id req store in
  response out
  = {| status := 404;
       payload :=
         ErrorBody
           ("Product with id " ++ params_id req ++ " not found for update.")
           None |}
  /\ store_after out = store.
Proof.
  intros Hne Hk Hd Hno out. subst out. unfold handle, stack.
  rewrite write_route_pass by assumption. simpl. unfold updateHandler.
  destruct (list_find _ store) as [[i old]|] eqn:Ef.
  - exfalso. apply list_find_Some in Ef. destruct Ef as (Hi & Hp & _).
    apply Is_true_true, strict_eq_str_true in Hp.
    apply list_elem_of_lookup_2 in Hi. now apply Hno in Hi.
  - split; reflexivity.
Qed.

Lemma update_missing_not_found_witness :
  let out := handle "super-secret-key-123" EmptyString PUT_id
               (keyed_request "super-secret-key-123" "99" price_update)
               products in
  response out
  = {| status := 404;
       payload := ErrorBody "Product with id 99 not found for update."
                    None |}
  /\ store_after out = products.
Proof.
  apply (update_missing_not_found "super-secret-key-123" EmptyString
           (keyed_request "super-secret-key-123" "99" price_update)
           products).
  - discriminate.
  - reflexivity.
  - reflexivity.
  - intros p Hp. apply list_elem_of_In in Hp. simpl in Hp.
    destruct Hp as [<-|[<-|[<-|[]]]]; discriminate.
Defined.

(** What a PUT request does to the store: nothing, or the replacement of
    the first record with the id of the path by the merged record. *)
Lemma update_store API_KEY uuid req store :
  let out := handle API_KEY uuid PUT_id req store in
  (store_after out = store /\ status (response out) <> 200)
  \/ (exists i old,
        list_find
          (fun p : obj => Is_true (strict_eq_str (p !! "id") (params_id req)))
          store = Some (i, old)
        /\ authenticateMiddleware API_KEY req [] = Next
        /\ defects (body req) = []
        /\ out
           = mkRun ["loggerMiddleware"; "authenticateMiddleware";
                    "validateProduct"; "PUT /api/products/:id"]
               (<[i := <["id" := JStr (params_id req)]>
                         (spread old (body req))]> store)
               {| status := 200;
                  payload :=
                    OneProduct (<["id" := JStr (params_id req)]>
                                  (spread old (body req))) |}).
Proof.
  intros out. subst out. unfold handle, stack.
  destruct (write_route_gate API_KEY req
              ("PUT /api/products/:id", updateHandler))
    as [(trace & res & Hres & H)|(Ha & Hd & H)]; rewrite H.
  - left. split; [reflexivity|]. simpl. destruct Hres as [-> | ->];
      discriminate.
  - simpl. unfold updateHandler.
    destruct (list_find _ store) as [[i old]|] eqn:Ef; simpl.
    + right. exists i, old. auto.
    + left. split; [reflexivity|discriminate].
Qed.

(** X7: no PUT request, whatever its answer, changes the number of stored
    products or the sequence of their ids. *)
Theorem update_keeps_ids
    (API_KEY uuid : string) (req : Req) (store : list obj) :
  let out := handle API_KEY uuid PUT_id req store in
  List.length (store_after out) = List.length store
  /\ ids (store_after out) = ids store.
Proof.
  intros out.
  destruct (update_store API_KEY uuid req store)
    as [[H _]|(i & old & Hf & _ & _ & H)]; fold out in H; rewrite H.
  - split; reflexivity.
  - simpl. split; [apply length_insert|].
    unfold ids. rewrite list_fmap_insert. apply list_insert_id.
    apply list_find_Some in Hf. destruct Hf as (Hi & Hp & _).
    apply Is_true_true, strict_eq_str_true in Hp.
    rewrite list_lookup_fmap, Hi. simpl. now rewrite updated_record_id, Hp.
Qed.

(** X8: after a PUT request answered 200, the GET request for the same id
    is answered 200 with the record of the PUT response, for every id whose
    GET path reaches the [:id] route, that is, every non-empty id but
    "search" and "stats" (in any case). *)
Theorem update_then_get
    (API_KEY uuid uuid' : string) (req : Req) (store : list obj) :
  reserved_segment (params_id req) = false ->
  let updated := handle API_KEY uuid PUT_id req store in
  status (response updated) = 200 ->
  response (handle API_KEY uuid' GET_id req (store_after updated))
  = {| status := 200; payload := payload (response updated) |}.
Proof.
  intros _ updated Hs.
  destruct (update_store API_KEY uuid req store)
    as [[_ H]|(i & old & Hf & _ & _ & H)]; fold updated in H;
    [contradiction|].
  rewrite H. simpl. rewrite get_reached. simpl.
  rewrite find_list_find.
  rewrite (list_find_insert_first _ _ _ old) ; [reflexivity|assumption|].
  apply Is_true_true, strict_eq_str_true, updated_record_id.
Qed.

Lemma update_then_get_witness :
  let updated := handle "super-secret-key-123" EmptyString PUT_id
                   (keyed_request "super-secret-key-123" "1" price_update)
                   products in
  response
    (handle "super-secret-key-123" EmptyString GET_id
       (keyed_request "super-secret-key-123" "1" price_update)
       (store_after updated))
  = {| status := 200; payload := payload (response updated) |}.
Proof.
  apply (update_then_get "super-secret-key-123" EmptyString EmptyString
           (keyed_request "super-secret-key-123" "1" price_update)
           products).
  - reflexivity.
  - vm_compute. reflexivity.
Defined.

(** X9: update is idempotent: the same PUT request sent again gets the same
    response and leaves the store as the first request left it. *)
Theorem update_idempotent
    (API_KEY uuid uuid' : string) (req : Req) (store : list obj) :
  let first := handle API_KEY uuid PUT_id req store in
  let second := handle API_KEY uuid' PUT_id req (store_after first) in
  response second = response first
  /\ store_after second = store_after first.
Proof.
  intros first second.
  assert (Huuid : forall st,
            handle API_KEY uuid' PUT_id req st
            = handle API_KEY uuid PUT_id req st) by reflexivity.
  subst second. rewrite Huuid.
  destruct (update_store API_KEY uuid req store)
    as [[H _]|(i & old & Hf & Ha & Hd & H)]; fold first in H.
  - rewrite H. fold first. split; [reflexivity|assumption].
  - rewrite H. simpl.
    set (new := <["id" := JStr (params_id req)]> (spread old (body req))).
    assert (Hf' : list_find
              (fun p : obj =>
                 Is_true (strict_eq_str (p !! "id") (params_id req)))
              (<[i := new]> store) = Some (i, new)).
    { apply (list_find_insert_first _ _ _ old); [assumption|].
      apply Is_true_true, strict_eq_str_true, updated_record_id. }
    unfold handle, stack. rewrite write_route_reaches by assumption.
    simpl. unfold updateHandler. rewrite Hf'. simpl. fold new.
    unfold new at 1 3. rewrite updated_record_again. fold new.
    now rewrite list_insert_insert_eq.
Qed.

(** ** Create *)

Lemma create_accepted_handle API_KEY uuid req store :
  let out := handle API_KEY uuid POST_products req store in
  (status (response out) = 201 <->
   header_x_api_key req = Some API_KEY /\ API_KEY <> EmptyString
   /\ defects (body req) = [])
  /\ (status (response out) = 201 ->
      exists created,
        payload (response out) = OneProduct created
        /\ store_after out = (store ++ [created])%list)
  /\ (status (response out) <> 201 -> store_after out = store).
Proof.
  intros out. subst out. unfold handle, stack.
  destruct (write_route_gate API_KEY req
              ("POST /api/products", createHandler uuid))
    as [(trace & res & Hres & H)|(Ha & Hd & H)]; rewrite H.
  - simpl. assert (Hne : status res <> 201)
      by (destruct Hres as [-> | ->]; discriminate).
    split; [|split; [contradiction|reflexivity]].
    split; [contradiction|]. intros (Hk & HK & Hd). exfalso.
    specialize (H []). rewrite write_route_reaches in H.
    + rewrite create_reached in H. injection H as _ _ H. rewrite <- H in Hne.
      now apply Hne.
    + now apply authenticate_Next_iff.
    + assumption.
  - rewrite create_reached. simpl. split; [|split].
    + split; [|reflexivity]. intros _.
      apply authenticate_Next_iff in Ha. tauto.
    + intros _. eexists. split; reflexivity.
    + contradiction.
Qed.

(** X10: a POST request is answered 201 exactly when the body parser accepts
    its body, its [x-api-key] header is the configured, non-empty key and
    its body satisfies the four rules; it then appends the record of the
    response at the end of the store and leaves the products before it as
    they were; any other POST request leaves the store as it was.  (The
    errors of the body parser carry an error status, 400 or more.) *)
Theorem create_accepted_iff
    (API_KEY uuid : string) (incoming : Incoming) (store : list obj) :
  (forall err, parse_error incoming = Some err ->
               400 <= status (errorHandler err)) ->
  let req := request incoming in
  let out := app API_KEY uuid POST_products incoming store in
  (status (response out) = 201 <->
   parse_error incoming = None
   /\ header_x_api_key req = Some API_KEY /\ API_KEY <> EmptyString
   /\ defects (body req) = [])
  /\ (status (response out) = 201 ->
      exists created,
        payload (response out) = OneProduct created
        /\ store_after out = (store ++ [created])%list)
  /\ (status (response out) <> 201 -> store_after out = store).
Proof.
  intros Herr req out. subst req out.
  destruct (parse_error incoming) as [err|] eqn:Hp.
  - rewrite (app_unparsed _ _ _ _ _ err Hp).
    specialize (Herr err eq_refl). cbn [response store_after].
    assert (Hne : status (errorHandler err) <> 201) by lia.
    split; [|split; [contradiction|reflexivity]].
    split; [contradiction|]. intros [[=] _].
  - rewrite (app_parsed _ _ POST_products _ _ Hp (or_introl eq_refl)). simpl.
    destruct (create_accepted_handle API_KEY uuid (request incoming) store)
      as (H1 & H2 & H3).
    split; [|split; assumption]. rewrite H1. tauto.
Qed.

Lemma create_accepted_iff_witness :
  let incoming :=
    mkIncoming
      (mkReq "/api/products" (Some "super-secret-key-123") lamp_payload
         EmptyString ∅)
      None None in
  let out :=
    app "super-secret-key-123" "4" POST_products incoming products in
  status (response out) = 201
  /\ store_after out = store_with_lamp.
Proof.
  destruct (create_accepted_iff "super-secret-key-123" "4"
              (mkIncoming
                 (mkReq "/api/products" (Some "super-secret-key-123")
                    lamp_payload EmptyString ∅)
                 None None)
              products) as (H1 & _ & _).
  - intros err [=].
  - split; [|reflexivity]. apply H1.
    repeat split; try reflexivity. discriminate.
Defined.

(** X11: when a create request is answered 201, its body has no [id], the
    generated id is not in the store and the stored ids are pairwise
    distinct, the created record has the generated id and the stored ids
    are still pairwise distinct. *)
Theorem create_keeps_ids_distinct
    (API_KEY uuid : string) (req : Req) (store : list obj) :
  let out := handle API_KEY uuid POST_products req store in
  status (response out) = 201 ->
  body req !! "id" = None ->
  Some (JStr uuid) ∉ ids store ->
  NoDup (ids store) ->
  exists created,
    payload (response out) = OneProduct created
    /\ created !! "id" = Some (JStr uuid)
    /\ NoDup (ids (store_after out)).
Proof.
  intros out Hs Hb Hf Hn.
  destruct (create_with_fresh_uuid API_KEY uuid req store Hs Hb Hf Hn)
    as (created & H1 & H2 & _ & H4).
  exists created. auto.
Qed.

Lemma seed_ids :
  ids products = [Some (JStr "1"); Some (JStr "2"); Some (JStr "3")].
Proof. reflexivity. Qed.

Lemma create_keeps_ids_distinct_witness :
  let out := handle "super-secret-key-123" "4" POST_products
               (mkReq "/api/products" (Some "super-secret-key-123")
                  lamp_payload EmptyString ∅)
               products in
  exists created,
    payload (response out) = OneProduct created
    /\ created !! "id" = Some (JStr "4")
    /\ NoDup (ids (store_after out)).
Proof.
  apply (create_keeps_ids_distinct "super-secret-key-123" "4"
           (mkReq "/api/products" (Some "super-secret-key-123")
              lamp_payload EmptyString ∅) products).
  - reflexivity.
  - reflexivity.
  - rewrite seed_ids. intros H. apply list_elem_of_In in H. simpl in H.
    destruct H as [H|[H|[H|[]]]]; discriminate H.
  - rewrite seed_ids. repeat (apply NoDup_cons; split;
      [intros H; apply list_elem_of_In in H; simpl in H;
       repeat (destruct H as [H|H]; [discriminate H|]); exact H|]).
    apply NoDup_nil. exact I.
Defined.



(** ** Validation and authentication *)

Lemma name_rule_iff (b : obj) :
  name_rule b = true <->
  exists s, b !! "name" = Some (JStr s) /\ (3 <= String.length s)%nat.
Proof.
  unfold name_rule. destruct (b !! "name") as [[| | |s| |]|];
    try (split; [discriminate|intros (s' & [=] & _)]).
  rewrite Z.leb_le. split.
  - intros H. exists s. split; [reflexivity|lia].
  - intros (s' & [= <-] & H). lia.
Qed.

Lemma price_rule_iff (b : obj) :
  price_rule b = true <->
  exists q, b !! "price" = Some (JNum q) /\ (0 < q)%Q.
Proof.
  unfold price_rule. destruct (b !! "price") as [[| |q| | |]|];
    try (split; [discriminate|intros (q' & [=] & _)]).
  rewrite negb_true_iff. split.
  - intros H. exists q. split; [reflexivity|].
    apply Qnot_le_lt. intros Hle. apply Qle_bool_iff in Hle. congruence.
  - intros (q' & [= <-] & H).
    destruct (Qle_bool q 0) eqn:E; [|reflexivity].
    apply Qle_bool_iff in E. now apply Qlt_not_le in H.
Qed.

Lemma category_rule_iff (b : obj) :
  category_rule b = true <->
  exists s, b !! "category" = Some (JStr s) /\ s <> EmptyString.
Proof.
  unfold category_rule. destruct (b !! "category") as [[| | |s| |]|];
    try (split; [discriminate|intros (s' & [=] & _)]).
  rewrite negb_true_iff. split.
  - intros H. exists s. split; [reflexivity|].
    intros ->. discriminate.
  - intros (s' & [= <-] & H).
    destruct (String.eqb_spec s EmptyString); congruence.
Qed.

Lemma inStock_rule_iff (b : obj) :
  inStock_rule b = true <->
  b !! "inStock" = None \/ exists v, b !! "inStock" = Some (JBool v).
Proof.
  unfold inStock_rule. destruct (b !! "inStock") as [[|v| | | |]|];
    try (split; [discriminate|intros [[=]|(v' & [=])]]).
  - split; eauto.
  - split; auto.
Qed.

(** X13: [validateProduct] lets a request through exactly when the [name]
    of its body is a string of at least 3 characters, its [price] a number
    greater than 0, its [category] a string that is not empty, and its
    [inStock] absent or a boolean. *)
Theorem validation_passes_iff (req : Req) (store : list obj) :
  validateProduct req store = Next <->
  (exists s, body req !! "name" = Some (JStr s)
             /\ (3 <= String.length s)%nat)
  /\ (exists q, body req !! "price" = Some (JNum q) /\ (0 < q)%Q)
  /\ (exists s, body req !! "category" = Some (JStr s) /\ s <> EmptyString)
  /\ (body req !! "inStock" = None
      \/ exists v, body req !! "inStock" = Some (JBool v)).
Proof.
  rewrite <- name_rule_iff, <- price_rule_iff, <- category_rule_iff,
    <- inStock_rule_iff, <- defects_nil.
  split.
  - intros H. destruct (defects (body req)) as [|d ds] eqn:E;
      [reflexivity|].
    rewrite validate_fail in H by (rewrite E; discriminate). discriminate.
  - apply validate_pass.
Qed.

(** X14: [validateProduct] looks at [name], [price], [category] and
    [inStock] only: adding, changing or removing any other field of the
    body, such as [description] or [id], does not change its errors. *)
Theorem validation_ignores_other_fields (b : obj) (k : string) (v : json) :
  k <> "name" -> k <> "price" -> k <> "category" -> k <> "inStock" ->
  validation_errors (<[k := v]> b) = validation_errors b
  /\ validation_errors (delete k b) = validation_errors b.
Proof.
  intros H1 H2 H3 H4. unfold validation_errors.
  rewrite !lookup_insert_ne, !lookup_delete_ne by congruence.
  split; reflexivity.
Qed.

Lemma validation_ignores_other_fields_witness :
  validation_errors (<["description" := JNum 5]> invalid_payload)
  = validation_errors invalid_payload
  /\ validation_errors (delete "description" invalid_payload)
     = validation_errors invalid_payload.
Proof.
  apply (validation_ignores_other_fields invalid_payload "description"
           (JNum 5)); discriminate.
Defined.

Lemma load_API_KEY_not_empty (env : option string) :
  load_API_KEY env <> EmptyString.
Proof.
  unfold load_API_KEY. destruct env as [k|]; simpl; [|discriminate].
  destruct (String.eqb_spec k EmptyString) as [->|Hk]; simpl;
    [discriminate|assumption].
Qed.

(** X15: the configured key is the [API_KEY] of the environment when that
    is set and not empty, and "default-secret-key-fallback" otherwise; it
    is never empty, and a request passes [authenticateMiddleware] exactly
    when its [x-api-key] header is the configured key. *)
Theorem authentication_passes_iff
    (env : option string) (req : Req) (store : list obj) :
  let API_KEY := load_API_KEY env in
  API_KEY <> EmptyString
  /\ (env = None \/ env = Some EmptyString ->
      API_KEY = "default-secret-key-fallback")
  /\ (forall k, env = Some k -> k <> EmptyString -> API_KEY = k)
  /\ (authenticateMiddleware API_KEY req store = Next <->
      header_x_api_key req = Some API_KEY).
Proof.
  intros API_KEY. subst API_KEY.
  split; [apply load_API_KEY_not_empty|].
  split; [intros [-> | ->]; reflexivity|]. split.
  - intros k -> Hk. unfold load_API_KEY. simpl.
    destruct (String.eqb_spec k EmptyString); [contradiction|reflexivity].
  - rewrite authenticate_Next_iff.
    pose proof (load_API_KEY_not_empty env). tauto.
Qed.

(** ** What every request does *)

Lemma reads_store_list API_KEY uuid req store :
  store_after (handle API_KEY uuid GET_products req store) = store.
Proof. apply list_store. Qed.

Lemma reads_store_search API_KEY uuid req store :
  store_after (handle API_KEY uuid GET_search req store) = store.
Proof.
  unfold handle, stack. rewrite run_next by reflexivity.
  simpl. unfold searchHandler. destruct (negb _); [reflexivity|].
  destruct (query_toLowerCase _ _); simpl; [reflexivity|].
  now destruct (filter_throws _ store).
Qed.

(** X16: the three GET routes (list, search, get by id) never change the
    store, whatever they answer. *)
Theorem reads_keep_store
    (API_KEY uuid : string) (r : route) (req : Req) (store : list obj) :
  r = GET_products \/ r = GET_search \/ r = GET_id ->
  store_after (handle API_KEY uuid r req store) = store.
Proof.
  intros [-> | [-> | ->]].
  - apply reads_store_list.
  - apply reads_store_search.
  - now rewrite get_reached.
Qed.

Lemma reads_keep_store_witness :
  store_after
    (handle "super-secret-key-123" EmptyString GET_search
       (search_request "zzz") store_with_lamp)
  = store_with_lamp.
Proof.
  apply (reads_keep_store "super-secret-key-123" EmptyString GET_search
           (search_request "zzz") store_with_lamp).
  right; left; reflexivity.
Defined.

Lemma filter_throws_inv {A} (f : A -> throws bool) (l : list A)
    (e : JsError) :
  filter_throws f l = inl e -> exists y, y ∈ l /\ f y = inl e.
Proof.
  induction l as [|x l IH]; simpl; [discriminate|].
  destruct (f x) as [ex|b] eqn:Ex; simpl.
  - intros [= <-]. exists x. split; [apply list_elem_of_here|assumption].
  - destruct (filter_throws f l) as [el|r]; simpl; [|discriminate].
    intros [= <-]. destruct (IH eq_refl) as (y & Hy & Hfy).
    exists y. split; [now apply list_elem_of_further|assumption].
Qed.

Lemma untyped_status (e : JsError) :
  err_statusCode e = None -> status (errorHandler e) = 500.
Proof. intros H. unfold errorHandler. now rewrite H. Qed.

Lemma query_toLowerCase_throws (expr : string) (v : option qvalue)
    (e : JsError) :
  query_toLowerCase expr v = inl e -> err_statusCode e = None.
Proof. destruct v as [[t|l|l]|]; simpl; intros H; now inversion H. Qed.

(** The list route answers 200, or 500 when its filter throws. *)
Lemma list_cases API_KEY uuid req store :
  let code := status (response (handle API_KEY uuid GET_products req store)) in
  code = 200 \/ code = 500.
Proof.
  unfold handle, stack. rewrite run_next by reflexivity.
  simpl. unfold listHandler.
  destruct (qv_truthy (query req !! "category")); simpl; [|now left].
  destruct (filter_throws _ store) as [e|found] eqn:Ef; simpl; [|now left].
  right. apply filter_throws_inv in Ef. destruct Ef as (y & _ & Hy).
  apply untyped_status.
  destruct (call_toLowerCase (y !! "category")) as [e'|c] eqn:Ec;
    simpl in Hy.
  - injection Hy as <-. apply call_toLowerCase_throws in Ec. tauto.
  - destruct (query_toLowerCase "category" (query req !! "category"))
      as [e'|c'] eqn:Eq; simpl in Hy; [|discriminate].
    injection Hy as <-. now apply query_toLowerCase_throws in Eq.
Qed.

(** The search route answers 400 without a query, and otherwise 200, or 500
    when the query is not a string or the filter throws. *)
Lemma search_cases API_KEY uuid req store :
  let code := status (response (handle API_KEY uuid GET_search req store)) in
  code = 200 \/ code = 400 \/ code = 500.
Proof.
  unfold handle, stack. rewrite run_next by reflexivity.
  simpl. unfold searchHandler.
  destruct (negb (qv_truthy (query req !! "q"))); simpl;
    [right; now left|].
  destruct (query_toLowerCase "q" (query req !! "q")) as [e|sq] eqn:Eq;
    simpl.
  - right; right. apply untyped_status.
    now apply query_toLowerCase_throws in Eq.
  - destruct (filter_throws _ store) as [e|found] eqn:Ef; simpl;
      [|now left].
    right; right. apply filter_throws_inv in Ef.
    destruct Ef as (y & _ & Hy).
    apply search_match_error in Hy. apply untyped_status. tauto.
Qed.

Lemma handle_status_codes API_KEY uuid r req store :
  let code := status (response (handle API_KEY uuid r req store)) in
  match r with
  | GET_products => code = 200 \/ code = 500
  | GET_search => code = 200 \/ code = 400 \/ code = 500
  | GET_id => code = 200 \/ code = 404
  | POST_products => code = 201 \/ code = 400 \/ code = 401
  | PUT_id => code = 200 \/ code = 400 \/ code = 401 \/ code = 404
  | DELETE_id => code = 204 \/ code = 404
  end.
Proof.
  intros code. subst code. destruct r.
  - apply list_cases.
  - apply search_cases.
  - rewrite get_reached. simpl. destruct (List.find _ store); auto.
  - destruct (create_cases API_KEY uuid req store)
      as [[H _]|[[H _]|(_ & _ & H)]]; rewrite H; auto.
  - unfold handle, stack.
    destruct (write_route_gate API_KEY req
                ("PUT /api/products/:id", updateHandler))
      as [(trace & res & Hres & H)|(_ & _ & H)]; rewrite H; simpl.
    + tauto.
    + unfold updateHandler. destruct (list_find _ store) as [[i old]|];
        simpl; auto.
  - rewrite delete_reached. simpl. destruct (_ =? _)%nat; auto.
Qed.

(** X17: the status codes of each route.  A request whose body the body
    parser rejects is answered, on every route, with the status of the
    parser's error (400 for a malformed body, 413 for one that is too
    large); a request for a route with an [:id] segment that cannot be
    decoded is answered with the status of the router's error (400).  Any
    other request is answered: by the list with 200 or 500; by the search
    with 200, 400 or 500; by get by id with 200 or 404; by create with 201,
    400 or 401; by update with 200, 400, 401 or 404; by delete with 204 or
    404. *)
Theorem status_codes
    (API_KEY uuid : string) (r : route) (incoming : Incoming)
    (store : list obj) :
  let code := status (response (app API_KEY uuid r incoming store)) in
  match parse_error incoming, decode_error incoming, r with
  | Some err, _, _ => code = status (errorHandler err)
  | None, Some err, (GET_id | PUT_id | DELETE_id) =>
      code = status (errorHandler err)
  | None, _, GET_products => code = 200 \/ code = 500
  | None, _, GET_search => code = 200 \/ code = 400 \/ code = 500
  | None, _, GET_id => code = 200 \/ code = 404
  | None, _, POST_products => code = 201 \/ code = 400 \/ code = 401
  | None, _, PUT_id => code = 200 \/ code = 400 \/ code = 401 \/ code = 404
  | None, _, DELETE_id => code = 204 \/ code = 404
  end.
Proof.
  intros code. subst code.
  destruct (parse_error incoming) as [err|] eqn:Hp.
  - now rewrite (app_unparsed _ _ _ _ _ err Hp).
  - destruct (decode_error incoming) as [err|] eqn:Hd.
    + destruct r;
        try (now rewrite (app_undecoded _ _ _ _ _ err Hp) by easy);
        (rewrite app_parsed by (assumption || now left)); cbn [response];
        [apply (handle_status_codes API_KEY uuid GET_products)
        |apply (handle_status_codes API_KEY uuid GET_search)
        |apply (handle_status_codes API_KEY uuid POST_products)].
    + rewrite (app_parsed _ _ _ _ _ Hp (or_intror Hd)). cbn [response].
      pose proof (handle_status_codes API_KEY uuid r (request incoming)
                    store) as H.
      now destruct r.
Qed.

(** X18: a request that is answered with an error status (400 or more)
    leaves the store as it was, on every route. *)
Theorem failure_keeps_store
    (API_KEY uuid : string) (r : route) (req : Req) (store : list obj) :
  let out := handle API_KEY uuid r req store in
  400 <= status (response out) ->
  store_after out = store.
Proof.
  intros out Hs. subst out. destruct r.
  - now apply reads_store_list.
  - now apply reads_store_search.
  - now rewrite get_reached.
  - destruct (create_cases API_KEY uuid req store)
      as [[_ H]|[[_ H]|(_ & _ & H)]]; try assumption.
    rewrite H in Hs. simpl in Hs. lia.
  - destruct (update_store API_KEY uuid req store)
      as [[H _]|(i & old & _ & _ & _ & H)]; [assumption|].
    rewrite H in Hs. simpl in Hs. lia.
  - rewrite delete_reached in *. simpl in *.
    destruct (_ =? _)%nat; [reflexivity|]. simpl in Hs. lia.
Qed.

Lemma failure_keeps_store_witness :
  store_after
    (handle "super-secret-key-123" EmptyString PUT_id
       (keyed_request "super-secret-key-123" "99" price_update) products)
  = products.
Proof.
  apply (failure_keeps_store "super-secret-key-123" EmptyString PUT_id
           (keyed_request "super-secret-key-123" "99" price_update)
           products).
  vm_compute. discriminate.
Defined.

(** ** The list route *)

Lemma reachable_categorized API_KEY store :
  reachable API_KEY store -> categorized store.
Proof.
  intros H. now apply well_formed_categorized, (reachable_well_formed API_KEY).
Qed.






Lemma toLowerCase_empty (s : string) :
  toLowerCase s = EmptyString <-> s = EmptyString.
Proof. destruct s; simpl; split; congruence. Qed.

Lemma category_filter_lower (c c' : string) (store : list obj) :
  toLowerCase c = toLowerCase c' ->
  category_filter (Some c) store = category_filter (Some c') store.
Proof.
  intros E. unfold category_filter.
  destruct (String.eqb_spec c EmptyString) as [->|Hc];
    destruct (String.eqb_spec c' EmptyString) as [->|Hc'].
  - reflexivity.
  - symmetry in E. simpl in E. apply (proj1 (toLowerCase_empty _)) in E.
    contradiction.
  - simpl in E. apply (proj1 (toLowerCase_empty _)) in E. contradiction.
  - unfold in_category. now rewrite E.
Qed.

(** X21: the category filter ignores case: on a reachable store, two list
    requests with the same page and limit whose categories differ only in
    the case of their letters get the same response. *)
Theorem list_category_ignores_case
    (API_KEY uuid : string) (req req' : Req) (store : list obj)
    (c c' : string) :
  reachable API_KEY store ->
  query req !! "category" = Some (QStr c) ->
  query req' !! "category" = Some (QStr c') ->
  toLowerCase c = toLowerCase c' ->
  query req !! "page" = query req' !! "page" ->
  query req !! "limit" = query req' !! "limit" ->
  response (handle API_KEY uuid GET_products req store)
  = response (handle API_KEY uuid GET_products req' store).
Proof.
  intros Hr Hc Hc' E Hp Hl.
  rewrite (list_reached _ _ _ _ (Some c)), (list_reached _ _ _ _ (Some c'))
    by (assumption || now apply (reachable_categorized API_KEY)).
  unfold requested_page, requested_limit. cbn zeta.
  rewrite Hp, Hl. now rewrite (category_filter_lower c c').
Qed.

Lemma list_category_ignores_case_witness :
  response
    (handle "super-secret-key-123" EmptyString GET_products
       (mkReq "/api/products" None ∅ EmptyString
          {[ "category" := QStr "Kitchen" ]}) products)
  = response
      (handle "super-secret-key-123" EmptyString GET_products
         (mkReq "/api/products" None ∅ EmptyString
            {[ "category" := QStr "KITCHEN" ]}) products).
Proof.
  apply (list_category_ignores_case "super-secret-key-123" EmptyString
           (mkReq "/api/products" None ∅ EmptyString
              {[ "category" := QStr "Kitchen" ]})
           (mkReq "/api/products" None ∅ EmptyString
              {[ "category" := QStr "KITCHEN" ]})
           products "Kitchen" "KITCHEN");
    solve [reflexivity | apply reachable_seed].
Defined.

(** ** The search route *)

(** X22: the search ignores the case of the query: two search requests
    whose non-empty queries differ only in the case of their letters get
    the same response, on every store. *)
Theorem search_ignores_case
    (API_KEY uuid : string) (req req' : Req) (store : list obj)
    (q q' : string) :
  query req !! "q" = Some (QStr q) -> q <> EmptyString ->
  query req' !! "q" = Some (QStr q') ->
  toLowerCase q = toLowerCase q' ->
  response (handle API_KEY uuid GET_search req store)
  = response (handle API_KEY uuid GET_search req' store).
Proof.
  intros Hq Hne Hq' E.
  assert (Hne' : q' <> EmptyString).
  { intros ->. simpl in E. apply (proj1 (toLowerCase_empty _)) in E.
    contradiction. }
  rewrite (search_reached _ _ _ _ q), (search_reached _ _ _ _ q')
    by assumption.
  simpl. now rewrite E.
Qed.

Lemma search_ignores_case_witness :
  response
    (handle "super-secret-key-123" EmptyString GET_search
       (search_request "Laptop") products)
  = response
      (handle "super-secret-key-123" EmptyString GET_search
         (search_request "LAPTOP") products).
Proof.
  apply (search_ignores_case "super-secret-key-123" EmptyString
           (search_request "Laptop") (search_request "LAPTOP") products
           "Laptop" "LAPTOP"); solve [reflexivity | discriminate].
Defined.

(** X23: on a store whose products all have a name and a description that
    are strings, a search with a non-empty query is answered 200 with the
    products whose name or description contains the query, ignoring case,
    in the order of the store; the list is empty when there is none, and
    the store is not changed. *)
Theorem search_finds_matches
    (API_KEY uuid : string) (req : Req) (store : list obj) (q : string) :
  query req !! "q" = Some (QStr q) -> q <> EmptyString ->
  (forall p, p ∈ store ->
             is_string (p !! "name") = true
             /\ is_string (p !! "description") = true) ->
  let out := handle API_KEY uuid GET_search req store in
  response out
  = {| status := 200; payload := ProductList (matching q store) |}
  /\ store_after out = store
  /\ (forall p, p ∈ matching q store <->
                p ∈ store
                /\ (contains_ci q (p !! "name") = true
                    \/ contains_ci q (p !! "description") = true)).
Proof.
  intros Hq Hne Hs out. subst out.
  rewrite (search_described _ _ _ _ q); try assumption.
  - split; [reflexivity|]. split; [reflexivity|]. intros p.
    unfold matching. rewrite !list_elem_of_In, filter_In, orb_true_iff.
    reflexivity.
  - intros p Hp. destruct (Hs p Hp) as [Hn Hd]. unfold searchable.
    rewrite Hn, Hd. now rewrite orb_true_r.
Qed.

Lemma search_finds_matches_witness :
  let out := handle "super-secret-key-123" EmptyString GET_search
               (search_request "MAKER") products in
  response out
  = {| status := 200; payload := ProductList (matching "MAKER" products) |}
  /\ store_after out = products
  /\ (forall p, p ∈ matching "MAKER" products <->
                p ∈ products
                /\ (contains_ci "MAKER" (p !! "name") = true
                    \/ contains_ci "MAKER" (p !! "description") = true)).
Proof.
  apply (search_finds_matches "super-secret-key-123" EmptyString
           (search_request "MAKER") products "MAKER").
  - reflexivity.
  - discriminate.
  - intros p Hp. apply list_elem_of_In in Hp. simpl in Hp.
    destruct Hp as [<-|[<-|[<-|[]]]]; split; reflexivity.
Defined.

(** X24: a search request without [q], or with an empty [q], is answered
    400 with the message "Search query (q) parameter is required." and no
    details, without reading the store. *)
Theorem search_requires_query
    (API_KEY uuid : string) (req : Req) (store : list obj) :
  query req !! "q" = None \/ query req !! "q" = Some (QStr EmptyString) ->
  let out := handle API_KEY uuid GET_search req store in
  response out
  = {| status := 400;
       payload := ErrorBody "Search query (q) parameter is required."
                    None |}
  /\ store_after out = store.
Proof.
  intros Hq out. subst out. rewrite search_without_query by assumption.
  split; reflexivity.
Qed.

Lemma search_requires_query_witness :
  let out := handle "super-secret-key-123" EmptyString GET_search
               (mkReq "/api/products/search" None ∅ EmptyString ∅)
               store_with_lamp in
  response out
  = {| status := 400;
       payload := ErrorBody "Search query (q) parameter is required."
                    None |}
  /\ store_after out = store_with_lamp.
Proof.
  apply (search_requires_query "super-secret-key-123" EmptyString
           (mkReq "/api/products/search" None ∅ EmptyString ∅)
           store_with_lamp).
  left. reflexivity.
Defined.

(** ** The stored products are valid *)

Lemma defects_ext (p b : obj) :
  p !! "name" = b !! "name" -> p !! "price" = b !! "price" ->
  p !! "category" = b !! "category" ->
  inStock_rule p = inStock_rule b ->
  defects p = defects b.
Proof.
  intros Hn Hp Hc Hi. unfold defects, name_rule, price_rule, category_rule.
  now rewrite Hn, Hp, Hc, Hi.
Qed.

Lemma valid_body_inStock (b : obj) :
  defects b = [] ->
  b !! "inStock" = None \/ exists v, b !! "inStock" = Some (JBool v).
Proof.
  intros H. apply defects_nil in H. now apply inStock_rule_iff.
Qed.

Lemma created_record_valid uuid (b : obj) :
  defects b = [] -> valid_product (created_record uuid b).
Proof.
  intros Hd. pose proof (valid_body_inStock b Hd) as Hi.
  assert (Hs : exists v, created_record uuid b !! "inStock" = Some (JBool v)).
  { rewrite created_record_inStock.
    destruct Hi as [-> | (v & ->)]; eauto. }
  split; [|exact Hs]. rewrite <- Hd. apply defects_ext;
    try (apply created_record_field; discriminate).
  destruct Hs as (v & Hv). unfold inStock_rule. rewrite Hv.
  destruct Hi as [-> | (w & ->)]; reflexivity.
Qed.

Lemma updated_record_valid (id : string) (old b : obj) :
  defects b = [] -> valid_product old ->
  valid_product (<["id" := JStr id]> (spread old b)).
Proof.
  intros Hd [_ (v & Hv)].
  pose proof (valid_body_inStock b Hd) as Hi.
  pose proof (valid_body_strings b Hd) as [Hn Hc].
  assert (Hp : is_Some (b !! "price")).
  { apply defects_nil in Hd. destruct Hd as (_ & Hp & _).
    apply price_rule_iff in Hp. destruct Hp as (q & -> & _). eauto. }
  assert (Hs : exists w, (<["id" := JStr id]> (spread old b)) !! "inStock"
                         = Some (JBool w)).
  { rewrite lookup_insert_ne by discriminate. unfold spread.
    rewrite lookup_union. destruct Hi as [-> | (w & ->)]; rewrite Hv;
      simpl; eauto. }
  split; [|exact Hs]. rewrite <- Hd. apply defects_ext;
    try (apply updated_record_field;
         [discriminate|assumption || now apply is_string_is_Some]).
  destruct Hs as (w & Hw). unfold inStock_rule. rewrite Hw.
  destruct Hi as [-> | (w' & ->)]; reflexivity.
Qed.

Lemma handle_valid API_KEY uuid r req store :
  Forall valid_product store ->
  Forall valid_product (store_after (handle API_KEY uuid r req store)).
Proof.
  intros Hv. destruct r.
  - now rewrite reads_store_list.
  - now rewrite reads_store_search.
  - now rewrite get_reached.
  - destruct (create_cases API_KEY uuid req store)
      as [[_ ->]|[[_ ->]|(Hd & -> & _)]]; try assumption.
    apply Forall_app_2; [assumption|]. constructor; [|constructor].
    now apply created_record_valid.
  - destruct (update_store API_KEY uuid req store)
      as [[-> _]|(i & old & Hf & _ & Hd & ->)]; [assumption|].
    simpl. apply Forall_insert; [assumption|].
    apply updated_record_valid; [assumption|].
    apply list_find_Some in Hf. destruct Hf as (Hi & _).
    apply list_elem_of_lookup_2 in Hi. revert old Hi.
    now apply Forall_forall.
  - rewrite delete_reached. simpl. destruct (_ =? _)%nat; [assumption|].
    apply Forall_forall. intros p Hp. apply elem_of_without_id in Hp.
    destruct Hp as [Hp _]. revert p Hp. now apply Forall_forall.
Qed.

Lemma seed_valid : Forall valid_product products.
Proof.
  repeat constructor; try (eexists; reflexivity).
Qed.

Lemma reachable_valid API_KEY store :
  reachable API_KEY store -> Forall valid_product store.
Proof.
  induction 1 as [|store uuid r req _ IH].
  - apply seed_valid.
  - now apply handle_valid.
Qed.

Lemma reachable_products_valid_aux API_KEY store :
  reachable API_KEY store ->
  forall p, p ∈ store -> valid_product p.
Proof.
  intros Hr. apply Forall_forall. now apply (reachable_valid API_KEY).
Qed.

(** X25: in every state that the store can reach, every product satisfies
    the four validation rules (a name of at least 3 characters, a price
    greater than 0, a category that is not empty, a boolean [inStock]) and
    has an [inStock]: no sequence of requests stores an invalid product. *)
Theorem reachable_products_valid (API_KEY : string) (store : list obj)
    (p : obj) :
  reachable API_KEY store ->
  p ∈ store ->
  validation_errors p = []
  /\ (exists s, p !! "name" = Some (JStr s) /\ (3 <= String.length s)%nat)
  /\ (exists q, p !! "price" = Some (JNum q) /\ (0 < q)%Q)
  /\ (exists s, p !! "category" = Some (JStr s) /\ s <> EmptyString)
  /\ (exists v, p !! "inStock" = Some (JBool v)).
Proof.
  intros Hr Hp.
  destruct (reachable_products_valid_aux API_KEY store Hr p Hp) as [Hd Hs].
  rewrite validation_errors_defects. split; [assumption|].
  apply defects_nil in Hd. destruct Hd as (Hn & Hpr & Hc & _).
  apply name_rule_iff in Hn. apply price_rule_iff in Hpr.
  apply category_rule_iff in Hc. auto.
Qed.

Lemma store_with_lamp_reachable :
  reachable "super-secret-key-123" store_with_lamp.
Proof. apply reachable_step, reachable_seed. Qed.

Lemma reachable_products_valid_witness :
  validation_errors (created_record "4" lamp_payload) = []
  /\ (exists s, created_record "4" lamp_payload !! "name" = Some (JStr s)
                /\ (3 <= String.length s)%nat)
  /\ (exists q, created_record "4" lamp_payload !! "price" = Some (JNum q)
                /\ (0 < q)%Q)
  /\ (exists s, created_record "4" lamp_payload !! "category" = Some (JStr s)
                /\ s <> EmptyString)
  /\ (exists v, created_record "4" lamp_payload !! "inStock"
                = Some (JBool v)).
Proof.
  apply (reachable_products_valid "super-secret-key-123" store_with_lamp
           (created_record "4" lamp_payload)).
  - apply store_with_lamp_reachable.
  - apply lamp_without_description.
Defined.

(** ** Statistics *)

Lemma count_step_countable (acc : gmap string Z) (p : obj) (c : string) :
  p !! "category" = Some (JStr c) -> c ∉ inherited_names ->
  count_step acc p = Some (<[c := default 0 (acc !! c) + 1]> acc).
Proof.
  intros Hc Hn. unfold count_step. rewrite Hc.
  rewrite bool_decide_eq_false_2 by assumption.
  destruct (acc !! c) as [n|]; simpl; [|reflexivity].
  now destruct (Z.eqb_spec n 0) as [->|_].
Qed.

Lemma sum_counts_insert (acc : gmap string Z) (c : string) :
  sum_counts (<[c := default 0 (acc !! c) + 1]> acc) = sum_counts acc + 1.
Proof.
  unfold sum_counts. destruct (acc !! c) as [n|] eqn:E; simpl.
  - rewrite <- insert_delete_eq.
    rewrite map_fold_insert_L; [|intros; lia|apply lookup_delete_eq].
    rewrite (map_fold_delete_L _ _ c n acc); [lia|intros; lia|assumption].
  - rewrite map_fold_insert_L; [lia|intros; lia|assumption].
Qed.

Lemma category_count_cons (k c : string) (p : obj) (l : list obj) :
  p !! "category" = Some (JStr c) ->
  category_count k (p :: l)
  = (if String.eqb c k then 1 else 0) + category_count k l.
Proof.
  intros Hc. unfold category_count. simpl. rewrite Hc. simpl.
  destruct (String.eqb c k); simpl; lia.
Qed.

Lemma category_count_nonneg (k : string) (l : list obj) :
  0 <= category_count k l.
Proof. unfold category_count. lia. Qed.

(** The table built by the [reduce], started from a table [acc]. *)
Lemma reduce_counts_spec (store : list obj) (acc : gmap string Z) :
  countable store ->
  exists m,
    reduce_counts store acc = Some m
    /\ (forall k, default 0 (m !! k)
                  = default 0 (acc !! k) + category_count k store)
    /\ (forall k, m !! k = None <->
                  acc !! k = None /\ category_count k store = 0)
    /\ sum_counts m = sum_counts acc + Z.of_nat (List.length store).
Proof.
  intros Hc. revert acc. induction Hc as [|p l (c & Hp & Hn) _ IH];
    intros acc.
  - exists acc. split; [reflexivity|]. unfold category_count. simpl.
    split; [intros; lia|]. split; [tauto|lia].
  - simpl. rewrite (count_step_countable acc p c Hp Hn).
    destruct (IH (<[c := default 0 (acc !! c) + 1]> acc))
      as (m & Hm & Hval & Hnone & Hsum).
    exists m. split; [assumption|]. split; [|split].
    + intros k. rewrite Hval, (category_count_cons k c p l Hp).
      destruct (String.eqb_spec c k) as [->|Hne].
      * rewrite lookup_insert_eq. simpl. lia.
      * rewrite lookup_insert_ne by assumption. lia.
    + intros k. rewrite Hnone, (category_count_cons k c p l Hp).
      pose proof (category_count_nonneg k l).
      destruct (String.eqb_spec c k) as [->|Hne].
      * rewrite lookup_insert_eq. split; [intros [[=] _]|intros [_ ?]; lia].
      * rewrite lookup_insert_ne by assumption.
        split; intros [? ?]; split; (assumption || lia).
    + rewrite Hsum, sum_counts_insert. simpl List.length. lia.
Qed.

Lemma reachable_countable API_KEY store :
  reachable API_KEY store ->
  (forall p c, p ∈ store -> p !! "category" = Some (JStr c) ->
               c ∉ inherited_names) ->
  countable store.
Proof.
  intros Hr Hn. apply (reachable_well_formed API_KEY) in Hr.
  apply Forall_forall. intros p Hp.
  apply (proj1 (Forall_forall _ _) Hr) in Hp as Hw. destruct Hw as [_ Hc].
  destruct (p !! "category") as [[| | |c| |]|] eqn:E; try discriminate.
  exists c. split; [reflexivity|]. now apply (Hn p).
Qed.

(** X26: on a reachable store in which no category is a property name
    inherited from [Object.prototype], the statistics report the number of
    stored products as [totalProducts], the number of products whose
    [inStock] is [true] as [inStockCount], and in [countByCategory] one
    entry for each category that some product has, spelled exactly as
    stored (categories that differ in case are counted apart), with the
    number of products of exactly that category. *)
Theorem stats_counts
    (API_KEY : string) (store : list obj) :
  reachable API_KEY store ->
  (forall p c, p ∈ store -> p !! "category" = Some (JStr c) ->
               c ∉ inherited_names) ->
  exists s,
    statsHandler store = Some s
    /\ totalProducts s = Z.of_nat (List.length store)
    /\ inStockCount s
       = Z.of_nat (List.length (List.filter in_stock store))
    /\ 0 <= inStockCount s <= totalProducts s
    /\ (forall c,
          countByCategory s !! c
          = if category_count c store =? 0 then None
            else Some (category_count c store)).
Proof.
  intros Hr Hn.
  destruct (reduce_counts_spec store ∅ (reachable_countable _ _ Hr Hn))
    as (m & Hm & Hval & Hnone & _).
  unfold statsHandler. rewrite Hm. eexists. split; [reflexivity|]. simpl.
  assert (Hf : List.filter (fun p : obj => truthy (p !! "inStock")) store
               = List.filter in_stock store).
  { apply filter_ext_in. intros p Hp. apply list_elem_of_In in Hp.
    destruct (reachable_products_valid_aux API_KEY store Hr p Hp)
      as [_ (v & Hv)].
    unfold in_stock. rewrite Hv. now destruct v. }
  rewrite Hf. split; [reflexivity|]. split; [reflexivity|]. split.
  - pose proof (filter_length_le in_stock store). lia.
  - intros c. specialize (Hval c). specialize (Hnone c).
    rewrite lookup_empty in Hval, Hnone. simpl in Hval.
    destruct (Z.eqb_spec (category_count c store) 0) as [E|E].
    + now apply Hnone.
    + destruct (m !! c) as [n|] eqn:Em.
      * simpl in Hval. now rewrite Hval.
      * exfalso. apply E. now apply Hnone.
Qed.

Lemma stats_counts_witness :
  exists s,
    statsHandler products = Some s
    /\ totalProducts s = 3
    /\ inStockCount s = 2
    /\ countByCategory s !! "electronics" = Some 2
    /\ countByCategory s !! "kitchen" = Some 1
    /\ countByCategory s !! "Kitchen" = None.
Proof.
  destruct (stats_counts "super-secret-key-123" products)
    as (s & Hs & Ht & Hi & _ & Hc).
  - apply reachable_seed.
  - intros p c Hp. apply list_elem_of_In in Hp. simpl in Hp.
    destruct Hp as [<-|[<-|[<-|[]]]]; intros [= <-]; intros Hin;
      apply list_elem_of_In in Hin; simpl in Hin;
      repeat (destruct Hin as [Hin|Hin]; [discriminate Hin|]); exact Hin.
  - exists s. split; [exact Hs|]. split; [exact Ht|]. split; [exact Hi|].
    rewrite !Hc. repeat split.
Defined.

(** X27: under the same conditions, the counts of [countByCategory] add up
    to [totalProducts]: every stored product is counted in exactly one
    category. *)
Theorem stats_counts_add_up
    (API_KEY : string) (store : list obj) :
  reachable API_KEY store ->
  (forall p c, p ∈ store -> p !! "category" = Some (JStr c) ->
               c ∉ inherited_names) ->
  exists s,
    statsHandler store = Some s
    /\ sum_counts (countByCategory s) = totalProducts s.
Proof.
  intros Hr Hn.
  destruct (reduce_counts_spec store ∅ (reachable_countable _ _ Hr Hn))
    as (m & Hm & _ & _ & Hsum).
  unfold statsHandler. rewrite Hm. eexists. split; [reflexivity|]. simpl.
  rewrite Hsum. unfold sum_counts. now rewrite map_fold_empty.
Qed.

Lemma stats_counts_add_up_witness :
  exists s,
    statsHandler products = Some s
    /\ sum_counts (countByCategory s) = totalProducts s.
Proof.
  apply (stats_counts_add_up "super-secret-key-123" products).
  - apply reachable_seed.
  - intros p c Hp. apply list_elem_of_In in Hp. simpl in Hp.
    destruct Hp as [<-|[<-|[<-|[]]]]; intros [= <-]; intros Hin;
      apply list_elem_of_In in Hin; simpl in Hin;
      repeat (destruct Hin as [Hin|Hin]; [discriminate Hin|]); exact Hin.
Defined.

End Extra.
